(** * aict_tools.apply: selection cuts on columnar event files

    A shallow embedding of [aict_tools/apply.py]: the operator table, the two
    mask evaluators ([create_mask_h5py], [create_mask_table]), the chunked
    filtered copy of an h5py group ([apply_cuts_h5py_chunked]) and the cascade
    filter over a CTA DL1 PyTables file ([apply_cuts_cta_dl1]).

    Scope of the model.
    - Column cells and comparison literals are integers ([Z]); floating point
      values and string literals are not modelled.
    - Python exceptions are values of [exception]; a function that can raise
      returns a [result], a function that raises after having written to the
      output returns the output as it was left together with the exception.
    - A mask is a rank-1 array of booleans.  A criterion on a column of
      another rank (an h5py dataset of rank other than 1, a table column with
      a shape) stops with [ShapeError] where numpy may broadcast; the
      properties are stated for criteria on columns of numbers.
    - Logging ([log.debug], [log.warning]) and the progress bar are omitted;
      the counts [before]/[after] of the mask evaluators only feed the log. *)

From stdpp Require Import base list strings gmap pretty.
From Stdlib Require Import ZArith Lia.

Local Open Scope string_scope.
Local Open Scope list_scope.

(** ** Exceptions and results *)

Inductive exception :=
| ValueError_single_entry      (* 'Expected dict with single entry column: [operator, value].' *)
| IndexError_empty_entry       (* list(c.items())[0] on an empty dict *)
| KeyError (key : string)      (* OPERATORS[operator], infile[key][name], group[name], row[name] *)
| ValueError_negative_dim      (* np.ones(n) with n < 0 *)
| ZeroDivisionError            (* n_events / chunksize with chunksize = 0 *)
| ShapeError                   (* numpy: operands could not be broadcast / boolean index mismatch *)
| ValueError_create (name : string) (* h5py create_dataset refused: name exists or data exceeds maxshape *)
| TypeError_assign (name : string)  (* h5py: value cannot be written into the selection *)
| NoSuchNodeError (path : string)   (* PyTables natural naming ([group.child]) on a missing node *)
| AttributeError_description (path : string) (* [.description] of a leaf that is no table *)
| NodeError (path : string)         (* PyTables create_table on an existing node *)
| TypeError_unhashable.             (* an array-valued cell inside a set element *)

Inductive result (A : Type) :=
| Ok (a : A)
| Raise (e : exception).
Arguments Ok {A} a.
Arguments Raise {A} e.

Definition bind {A B} (r : result A) (k : A -> result B) : result B :=
  match r with
  | Ok a => k a
  | Raise e => Raise e
  end.

(** The result of a function applied to what was returned. *)
Definition on_success {A B} (f : A -> B) (r : result A) : result B :=
  match r with
  | Ok a => Ok (f a)
  | Raise e => Raise e
  end.

Notation "'try' x <- r ; k" := (bind r (fun x => k))
  (at level 10, x name, r at level 100, k at level 200).

(** ** The operator table (lines 14-22) *)

Module operator.

(** The six functions imported from Python's [operator] module. *)
Inductive fn := lt | le | eq | ne | ge | gt.

Definition call (f : fn) (a b : Z) : bool :=
  match f with
  | lt => Z.ltb a b
  | le => Z.leb a b
  | eq => Z.eqb a b
  | ne => negb (Z.eqb a b)
  | ge => Z.geb a b
  | gt => Z.gtb a b
  end.

End operator.

Definition OPERATORS : gmap string operator.fn :=
  list_to_map
    [ ("<", operator.lt); ("lt", operator.lt);
      ("<=", operator.le); ("le", operator.le);
      ("==", operator.eq); ("eq", operator.eq);
      ("=", operator.eq);
      ("!=", operator.ne); ("ne", operator.ne);
      (">", operator.gt); ("gt", operator.gt);
      (">=", operator.ge); ("ge", operator.ge) ].

(** ** Selection configurations

    One entry of the list form is a dict [{column: [operator, value]}]; it is
    kept as the list of its items in insertion order, so that an entry with
    no item or with several items can be written down.  The legacy form is a
    single dict from column names to [[operator, value]]. *)

Abbreviation criterion := (string * Z)%type (only parsing).
Abbreviation entry := (list (string * criterion)) (only parsing).

Inductive selection_config :=
| LegacyDict (d : list (string * criterion))
| EntryList (l : list entry).

(** [[{k: v} for k, v in selection_config.items()]] under the [isinstance]
    test of lines 101-102. *)
Definition as_entries (sc : selection_config) : list entry :=
  match sc with
  | LegacyDict d => map (fun kv => [kv]) d
  | EntryList l => l
  end.

(** ** Columns of an h5py group

    [Rank1] is a dataset of shape [(n,)], [Rank2 w] one of shape [(n, w)]
    given by its rows.  The other ranks are only ever inspected through
    [ndim]: [Rank0] is a scalar dataset and [RankHigh k n] a dataset with
    [3 + k] axes and [n] entries along the first one. *)

Inductive dataset :=
| Rank1 (data : list Z)
| Rank2 (width : nat) (data : list (list Z))
| Rank0
| RankHigh (k : nat) (n : nat).

Definition ndim (d : dataset) : nat :=
  match d with
  | Rank1 _ => 1
  | Rank2 _ _ => 2
  | Rank0 => 0
  | RankHigh k _ => 3 + k
  end.

(** Extent along the first axis ([shape[0]]); a scalar dataset has none. *)
Definition n_rows (d : dataset) : nat :=
  match d with
  | Rank1 data => length data
  | Rank2 _ data => length data
  | Rank0 => 0
  | RankHigh _ n => n
  end.

(** The members of one h5py group, in iteration order of [.items()]. *)
Abbreviation h5group := (list (string * dataset)) (only parsing).

Fixpoint getitem {A} (name : string) (g : list (string * A)) : option A :=
  match g with
  | [] => None
  | (k, v) :: rest => if decide (k = name) then Some v else getitem name rest
  end.

(** ** numpy on rank-1 arrays *)

(** [a[start:end]] for non-negative bounds. *)
Definition slice {A} (start end_ : nat) (a : list A) : list A :=
  take (end_ - start) (drop start a).

Definition count_nonzero (mask : list bool) : nat :=
  length (filter (fun b => b = true) mask).

(** [np.logical_and] of two rank-1 arrays: element-wise on equal lengths, an
    operand of length one is broadcast, any other pair of lengths raises. *)
Definition logical_and (a b : list bool) : result (list bool) :=
  if decide (length a = length b) then Ok (zip_with andb a b)
  else match a, b with
       | _, [y] => Ok (map (fun x => andb x y) a)
       | [x], _ => Ok (map (fun y => andb x y) b)
       | _, _ => Raise ShapeError
       end.

(** Rows of [a] at which [mask] holds, for lengths known to agree. *)
Fixpoint compress {A} (mask : list bool) (a : list A) : list A :=
  match mask, a with
  | m :: mask', x :: a' => if m then x :: compress mask' a' else compress mask' a'
  | _, _ => []
  end.

(** [a[mask]] (and [a[mask, :]]): boolean indexing along the first axis; numpy
    raises IndexError when the lengths differ. *)
Definition boolean_index {A} (a : list A) (mask : list bool) : result (list A) :=
  if decide (length mask = length a) then Ok (compress mask a) else Raise ShapeError.

(** ** [create_mask_h5py] (lines 86-120) *)

(** [start or 0] and [min(n_events, end) if end else n_events]. *)
Definition start_or_0 (start : option nat) : nat :=
  match start with
  | Some (S s) => S s
  | _ => 0
  end.

Definition end_or_n_events (n_events : nat) (end_ : option nat) : nat :=
  match end_ with
  | Some (S e) => min n_events (S e)
  | _ => n_events
  end.

(** [np.ones(end - start, dtype=bool)]. *)
Definition ones (start end_ : nat) : result (list bool) :=
  if decide (end_ < start) then Raise ValueError_negative_dim
  else Ok (replicate (end_ - start) true).

(** [OPERATORS[operator](column[start:end], value)] for a column of rank 1.
    The comparison of a column of another rank is not a rank-1 array: numpy
    either refuses to broadcast it against the mask, or the mask stops being
    rank-1; [create_mask_h5py] then returns a mask of higher rank, the first
    masked read of a column of rank 1 or 2 raises, and a copy that reads no
    such column returns.  Masks of higher rank are not part of this model,
    which stops at the comparison with [ShapeError]; the properties below
    are stated for criteria on columns of rank 1. *)
Definition compare_column (f : operator.fn) (d : dataset) (start end_ : nat) (value : Z)
  : result (list bool) :=
  match d with
  | Rank1 data => Ok (map (fun x => operator.call f x value) (slice start end_ data))
  | _ => Raise ShapeError
  end.

(** One iteration of the loop of lines 104-118. *)
Definition cut_h5py (infile : h5group) (start end_ : nat) (c : entry) (mask : list bool)
  : result (list bool) :=
  match c with
  | _ :: _ :: _ => Raise ValueError_single_entry
  | [] => Raise IndexError_empty_entry
  | [item] =>
      let '(name, (operator, value)) := item in
      match OPERATORS !! operator with
      | None => Raise (KeyError operator)
      | Some f =>
          match getitem name infile with
          | None => Raise (KeyError name)
          | Some d =>
              try selection <- compare_column f d start end_ value;
              logical_and mask selection
          end
      end
  end.

Fixpoint cuts_h5py (infile : h5group) (start end_ : nat) (cs : list entry) (mask : list bool)
  : result (list bool) :=
  match cs with
  | [] => Ok mask
  | c :: cs' =>
      try mask' <- cut_h5py infile start end_ c mask;
      cuts_h5py infile start end_ cs' mask'
  end.

Definition create_mask_h5py (infile : h5group) (sc : selection_config) (n_events : nat)
    (start end_ : option nat) : result (list bool) :=
  let start := start_or_0 start in
  let end_ := end_or_n_events n_events end_ in
  try mask <- ones start end_;
  cuts_h5py infile start end_ (as_entries sc) mask.

(** ** The output group of [apply_cuts_h5py_chunked]

    The datasets of [outfile[key]] in creation order.  Only what the copy
    uses of h5py is modelled: [create_dataset] refuses a name that is taken
    and data whose extent exceeds [maxshape] along a bounded axis (the rule
    of HDF5 for a dataspace; the chunk layout that h5py guesses is not
    modelled); the first axis is unbounded ([None]), so [resize] along it
    always succeeds and pads with the fill value 0. *)

(** [group.create_dataset(name, data=data, maxshape=(None,))] for rank-1 data
    and [maxshape=(None, 2)] for rank-2 data. *)
Definition create_dataset (group : h5group) (name : string) (data : dataset)
  : result h5group :=
  match getitem name group with
  | Some _ => Raise (ValueError_create name)
  | None =>
      match data with
      | Rank2 width _ =>
          if decide (width <= 2) then Ok (group ++ [(name, data)])
          else Raise (ValueError_create name)
      | _ => Ok (group ++ [(name, data)])
      end
  end.

Fixpoint setitem {A} (name : string) (v : A) (g : list (string * A)) : list (string * A) :=
  match g with
  | [] => []
  | (k, old) :: rest =>
      if decide (k = name) then (k, v) :: rest else (k, old) :: setitem name v rest
  end.

(** [d.resize(n_old + n_new, axis=0)] for [n_old = d.shape[0]]. *)
Definition resize (d : dataset) (n_new : nat) : dataset :=
  match d with
  | Rank1 data => Rank1 (data ++ replicate n_new 0%Z)
  | Rank2 width data => Rank2 width (data ++ replicate n_new (replicate width 0%Z))
  | Rank0 => Rank0
  | RankHigh k n => RankHigh k (n + n_new)
  end.

(** [d[n_old:n_old + n_new] = values] with [values] of rank 1, resp.
    [d[n_old:n_old + n_new, :] = values] with [values] of rank 2. *)
Definition assign_tail (name : string) (d : dataset) (n_old : nat) (values : dataset)
  : result dataset :=
  match d, values with
  | Rank1 data, Rank1 vs => Ok (Rank1 (take n_old data ++ vs))
  | Rank2 width data, Rank2 width' vs =>
      if decide (width = width') then Ok (Rank2 width (take n_old data ++ vs))
      else Raise (TypeError_assign name)
  | _, _ => Raise (TypeError_assign name)
  end.

(** ** [apply_cuts_h5py_chunked] (lines 164-216) *)

(** The state of the output group and the exception that ended the work, if
    one was raised. *)
Abbreviation progress := (h5group * option exception)%type (only parsing).

(** The body of the loop over the columns for [chunk == 0] (lines 194-203). *)
Definition first_chunk_column (start end_ : nat) (mask : list bool)
    (item : string * dataset) (group : h5group) : progress :=
  let (name, d) := item in
  match d with
  | Rank1 data =>
      match (try selected <- boolean_index (slice start end_ data) mask;
             create_dataset group name (Rank1 selected)) with
      | Ok group' => (group', None)
      | Raise e => (group, Some e)
      end
  | Rank2 width data =>
      match (try selected <- boolean_index (slice start end_ data) mask;
             create_dataset group name (Rank2 width selected)) with
      | Ok group' => (group', None)
      | Raise e => (group, Some e)
      end
  | _ => (group, None)  (* log.warning('Skipping not 1d or 2d column') *)
  end.

(** The body of the loop over the columns for the later chunks (lines
    207-216). *)
Definition later_chunk_column (start end_ : nat) (mask : list bool)
    (item : string * dataset) (group : h5group) : progress :=
  let (name, d) := item in
  match getitem name group with
  | None => (group, Some (KeyError name))
  | Some out =>
      let n_old := n_rows out in
      let n_new := count_nonzero mask in
      let resized := resize out n_new in
      let group := setitem name resized group in
      match d with
      | Rank1 data =>
          match (try selected <- boolean_index (slice start end_ data) mask;
                 assign_tail name resized n_old (Rank1 selected)) with
          | Ok out' => (setitem name out' group, None)
          | Raise e => (group, Some e)
          end
      | Rank2 width data =>
          match (try selected <- boolean_index (slice start end_ data) mask;
                 assign_tail name resized n_old (Rank2 width selected)) with
          | Ok out' => (setitem name out' group, None)
          | Raise e => (group, Some e)
          end
      | _ => (group, None)  (* log.warning('Skipping not 1d or 2d column') *)
      end
  end.

(** [for name, dataset in infile[key].items()]: stops at the first exception. *)
Fixpoint for_columns (body : string * dataset -> h5group -> progress)
    (items : h5group) (group : h5group) : progress :=
  match items with
  | [] => (group, None)
  | item :: rest =>
      match body item group with
      | (group', None) => for_columns body rest group'
      | raised => raised
      end
  end.

(** One iteration of the loop over the chunks (lines 185-216). *)
Definition copy_chunk (infile : h5group) (sc : selection_config)
    (n_events chunksize chunk : nat) (group : h5group) : progress :=
  let start := chunk * chunksize in
  let end_ := min n_events ((chunk + 1) * chunksize) in
  match create_mask_h5py infile sc n_events (Some start) (Some end_) with
  | Raise e => (group, Some e)
  | Ok mask =>
      match chunk with
      | 0 => for_columns (first_chunk_column start end_ mask) infile group
      | _ => for_columns (later_chunk_column start end_ mask) infile group
      end
  end.

Fixpoint for_chunks (infile : h5group) (sc : selection_config)
    (n_events chunksize : nat) (chunks : list nat) (group : h5group) : progress :=
  match chunks with
  | [] => (group, None)
  | chunk :: rest =>
      match copy_chunk infile sc n_events chunksize chunk group with
      | (group', None) => for_chunks infile sc n_events chunksize rest group'
      | raised => raised
      end
  end.

(** [int(np.ceil(n_events / chunksize))], computed on the integers. *)
Definition n_chunks (n_events chunksize : nat) : nat :=
  (n_events + chunksize - 1) / chunksize.

(** What a call leaves behind: the datasets of the output group ([None] while
    the output file has not been opened) and the exception, if it raised. *)
Record h5run := { outfile : option h5group; raised : option exception }.

(** [n_events] is the value of [get_number_of_rows_in_table(input_path, key)],
    a function of [aict_tools.io]; [infile] stands for [infile[key]]. *)
Definition apply_cuts_h5py_chunked (n_events : nat) (infile : h5group)
    (sc : selection_config) (chunksize : nat) : h5run :=
  match chunksize with
  | 0 => {| outfile := None; raised := Some ZeroDivisionError |}
  | _ =>
      let (group, e) :=
        for_chunks infile sc n_events chunksize (seq 0 (n_chunks n_events chunksize)) [] in
      {| outfile := Some group; raised := e |}
  end.

(** The output of a call that returned. *)
Definition completed (r : h5run) : option h5group :=
  match raised r with
  | None => outfile r
  | Some _ => None
  end.

(** ** PyTables files

    A cell of a row is a number or, for a column with a shape, an array.  The
    [description] of a table lists its columns with their shapes; a row holds
    one cell per column, in that order. *)

Inductive cell :=
| Scalar (z : Z)
| Vector (a : list Z).

Inductive col_shape :=
| scalar_col
| vector_col (width : nat).

Abbreviation row := (list cell) (only parsing).

Record table := {
  v_parent : string;                         (* table._v_parent._v_pathname *)
  v_name : string;                           (* table.name *)
  description : list (string * col_shape);   (* table.description *)
  rows : list row                            (* table.iterrows() *)
}.

Definition colnames (t : table) : list string := map fst (description t).

(** The nodes of a file, in the order of [walk_nodes()]. *)
Inductive node :=
| Group (parent name : string)
| Table (t : table)
| Leaf (parent name : string).

Definition node_parent (n : node) : string :=
  match n with
  | Group parent _ => parent
  | Table t => v_parent t
  | Leaf parent _ => parent
  end.

Definition node_name (n : node) : string :=
  match n with
  | Group _ name => name
  | Table t => v_name t
  | Leaf _ name => name
  end.

Definition join_path (parent name : string) : string :=
  if decide (parent = "/") then "/" +:+ name else parent +:+ "/" +:+ name.

Definition pathname (n : node) : string := join_path (node_parent n) (node_name n).

Definition PARAMETERS : string := "/dl1/event/telescope/parameters".

(** [row[name]]. *)
Definition row_getitem (t : table) (r : row) (name : string) : result cell :=
  match getitem name (zip (colnames t) r) with
  | Some c => Ok c
  | None => Raise (KeyError name)
  end.

(** [row[:]], the tuple of all fields. *)
Definition row_all (r : row) : row := r.

(** [table.col(name)]. *)
Fixpoint col_of (t : table) (name : string) (rs : list row) : result (list cell) :=
  match rs with
  | [] => Ok []
  | r :: rs' =>
      try c <- row_getitem t r name;
      try cs <- col_of t name rs';
      Ok (c :: cs)
  end.

Definition col (t : table) (name : string) : result (list cell) :=
  col_of t name (rows t).

(** [OPERATORS[operator](table.col(name)[start:end], value)] for a column of
    numbers.  As for [compare_column], the comparison of a column with a
    shape is not a rank-1 array: where numpy can broadcast it, the mask gets a
    second axis and the loop over the rows tests arrays (one of a single
    entry counts as that entry, a longer one raises).  Such masks are not
    part of this model, which stops at the comparison with [ShapeError]; the
    properties below are stated for criteria on columns of numbers. *)
Fixpoint compare_cells (f : operator.fn) (cells : list cell) (value : Z) : result (list bool) :=
  match cells with
  | [] => Ok []
  | Scalar z :: cells' =>
      try bs <- compare_cells f cells' value;
      Ok (operator.call f z value :: bs)
  | Vector _ :: _ => Raise ShapeError
  end.

Definition compare_table_column (f : operator.fn) (t : table) (name : string)
    (start end_ : nat) (value : Z) : result (list bool) :=
  match getitem name (description t) with
  | Some scalar_col =>
      try column <- col t name;
      compare_cells f (slice start end_ column) value
  | Some (vector_col _) => Raise ShapeError
  | None => Raise (KeyError name)
  end.

(** ** [create_mask_table] (lines 123-161) *)

Definition missing_column (name : string) : string :=
  "Cant perform selection based on " +:+ name +:+ " Column is missing from parameters table".

Definition cut_table (t : table) (start end_ : nat) (c : entry) (mask : list bool)
  : result (list bool) :=
  match c with
  | _ :: _ :: _ => Raise ValueError_single_entry
  | [] => Raise IndexError_empty_entry
  | [item] =>
      let '(name, (operator, value)) := item in
      if decide (name ∈ colnames t) then
        match OPERATORS !! operator with
        | None => Raise (KeyError operator)
        | Some f =>
            try selection <- compare_table_column f t name start end_ value;
            logical_and mask selection
        end
      else Raise (KeyError (missing_column name))
  end.

Fixpoint cuts_table (t : table) (start end_ : nat) (cs : list entry) (mask : list bool)
  : result (list bool) :=
  match cs with
  | [] => Ok mask
  | c :: cs' =>
      try mask' <- cut_table t start end_ c mask;
      cuts_table t start end_ cs' mask'
  end.

Definition create_mask_table (t : table) (sc : selection_config) (n_events : nat)
    (start end_ : option nat) : result (list bool) :=
  let start := start_or_0 start in
  let end_ := end_or_n_events n_events end_ in
  try mask <- ones start end_;
  cuts_table t start end_ (as_entries sc) mask.

(** ** [apply_cuts_cta_dl1] (lines 219-278)

    The output file is the list of the tables created in it, in creation
    order; the groups above them are implied ([createparents=True]).  It is
    opened in append mode, so a call starts from the tables [out0] that are
    already there. *)

Definition same_node (parent name : string) (t : table) : Prop :=
  v_parent t = parent ∧ v_name t = name.

Global Instance same_node_dec parent name t : Decision (same_node parent name t).
Proof. unfold same_node. apply _. Defined.

(** [out_.create_table(where, name, description, createparents=True)]: the
    check made before the new, empty table is added. *)
Definition create_table (out_ : list table) (parent name : string) : result unit :=
  if decide (Exists (same_node parent name) out_)
  then Raise (NodeError (join_path parent name))
  else Ok tt.

Definition new_table (parent name : string) (desc : list (string * col_shape))
    (appended : list row) : table :=
  {| v_parent := parent; v_name := name; description := desc; rows := appended |}.

(** [(row['obs_id'], row['event_id'])] as an element of a set. *)
Definition event_of (t : table) (r : row) : result (Z * Z) :=
  try obs_id <- row_getitem t r "obs_id";
  try event_id <- row_getitem t r "event_id";
  match obs_id, event_id with
  | Scalar o, Scalar e => Ok (o, e)
  | _, _ => Raise TypeError_unhashable
  end.

(** The variables of the first loop. *)
Record selected := {
  appended : list row;                 (* rows given to new_table.append *)
  remaining_showers : gset (Z * Z);
  n_rows_before : nat;
  n_rows_after : nat
}.

(** [for row, match in zip(table.iterrows(), mask)] (lines 251-256). *)
Fixpoint select_rows (t : table) (zipped : list (row * bool)) (st : selected)
  : selected * option exception :=
  match zipped with
  | [] => (st, None)
  | (r, matched) :: rest =>
      let st := {| appended := appended st;
                   remaining_showers := remaining_showers st;
                   n_rows_before := n_rows_before st + 1;
                   n_rows_after := n_rows_after st |} in
      if matched then
        match event_of t r with
        | Raise e => (st, Some e)
        | Ok event =>
            select_rows t rest
              {| appended := appended st ++ [row_all r];
                 remaining_showers := {[ event ]} ∪ remaining_showers st;
                 n_rows_before := n_rows_before st;
                 n_rows_after := n_rows_after st + 1 |}
        end
      else select_rows t rest st
  end.

(** The state between two tables of the first loop. *)
Record phase1 := {
  out1 : list table;
  showers1 : gset (Z * Z);
  before1 : nat;
  after1 : nat
}.

(** The body of the loop over the parameter tables (lines 239-256).  The
    arguments of [create_table] are evaluated first: [table.name] of a child
    that is a group looks for a node [name] below it, which the groups of
    this model do not have, and a leaf that is no table has no
    [description]. *)
Definition cut_parameters (sc : selection_config) (n : node) (st : phase1)
  : phase1 * option exception :=
  match n with
  | Table t =>
      match create_table (out1 st) PARAMETERS (v_name t) with
      | Raise e => (st, Some e)
      | Ok _ =>
          let fresh := new_table PARAMETERS (v_name t) (description t) in
          match create_mask_table t sc (length (rows t)) None None with
          | Raise e =>
              ({| out1 := out1 st ++ [fresh []]; showers1 := showers1 st;
                  before1 := before1 st; after1 := after1 st |}, Some e)
          | Ok mask =>
              let (sel, e) :=
                select_rows t (zip (rows t) mask)
                  {| appended := []; remaining_showers := showers1 st;
                     n_rows_before := before1 st; n_rows_after := after1 st |} in
              ({| out1 := out1 st ++ [fresh (appended sel)];
                  showers1 := remaining_showers sel;
                  before1 := n_rows_before sel; after1 := n_rows_after sel |}, e)
          end
      end
  | Group _ _ =>
      (* [table.name] of a group is natural naming: a child called [name]. *)
      (st, Some (NoSuchNodeError (join_path (pathname n) "name")))
  | Leaf _ _ => (st, Some (AttributeError_description (pathname n)))
  end.

Fixpoint for_parameters (sc : selection_config) (children : list node) (st : phase1)
  : phase1 * option exception :=
  match children with
  | [] => (st, None)
  | n :: rest =>
      match cut_parameters sc n st with
      | (st', None) => for_parameters sc rest st'
      | stopped => stopped
      end
  end.

(** [in_.root.dl1.event.telescope.parameters]: the children of that group, or
    [NoSuchNodeError] when the file has no such group. *)
Definition is_parameters_group (n : node) : bool :=
  match n with
  | Group parent name => bool_decide (join_path parent name = PARAMETERS)
  | _ => false
  end.

Definition parameters (in_ : list node) : result (list node) :=
  if existsb is_parameters_group in_
  then Ok (filter (fun n => node_parent n = PARAMETERS) in_)
  else Raise (NoSuchNodeError PARAMETERS).

(** [for row in table.iterrows()] of the second loop (lines 271-276). *)
Fixpoint copy_rows (t : table) (showers : gset (Z * Z)) (rs : list row) (kept : list row)
  : list row * option exception :=
  match rs with
  | [] => (kept, None)
  | r :: rest =>
      if decide ("event_id" ∈ colnames t) then
        match event_of t r with
        | Raise e => (kept, Some e)
        | Ok event =>
            if decide (event ∈ showers)
            then copy_rows t showers rest (kept ++ [row_all r])
            else copy_rows t showers rest kept
        end
      else copy_rows t showers rest (kept ++ [row_all r])
  end.

(** The body of the loop over [in_.walk_nodes()] (lines 259-276). *)
Definition copy_other (showers : gset (Z * Z)) (n : node) (out_ : list table)
  : list table * option exception :=
  match n with
  | Table t =>
      if decide (v_parent t = PARAMETERS) then (out_, None)
      else
        match create_table out_ (v_parent t) (v_name t) with
        | Raise e => (out_, Some e)
        | Ok _ =>
            let (kept, e) := copy_rows t showers (rows t) [] in
            (out_ ++ [new_table (v_parent t) (v_name t) (description t) kept], e)
        end
  | _ => (out_, None)
  end.

Fixpoint for_walk_nodes (showers : gset (Z * Z)) (nodes : list node) (out_ : list table)
  : list table * option exception :=
  match nodes with
  | [] => (out_, None)
  | n :: rest =>
      match copy_other showers n out_ with
      | (out', None) => for_walk_nodes showers rest out'
      | stopped => stopped
      end
  end.

(** The first loop of the function, from the tables [out0] already in the
    output file. *)
Definition parameter_phase (in_ : list node) (out0 : list table) (sc : selection_config)
  : phase1 * option exception :=
  let st0 := {| out1 := out0; showers1 := ∅; before1 := 0; after1 := 0 |} in
  match parameters in_ with
  | Raise e => (st0, Some e)
  | Ok children => for_parameters sc children st0
  end.

(** What a call leaves behind: the tables of the output file, and the pair
    [(n_rows_before, n_rows_after)] it returned or the exception it raised. *)
Record cta_run := { out_ : list table; returned : result (nat * nat) }.

Definition apply_cuts_cta_dl1 (in_ : list node) (out0 : list table) (sc : selection_config)
  : cta_run :=
  match parameter_phase in_ out0 sc with
  | (st, Some e) => {| out_ := out1 st; returned := Raise e |}
  | (st, None) =>
      match for_walk_nodes (showers1 st) in_ (out1 st) with
      | (out', Some e) => {| out_ := out'; returned := Raise e |}
      | (out', None) => {| out_ := out'; returned := Ok (before1 st, after1 st) |}
      end
  end.

(** ** [build_query] (lines 24-44)

    The configuration is the dict from column names to [[operator, value]];
    a value is a number or a string.  ['{}'.format(v)] of an integer is its
    decimal notation. *)

Definition text2symbol : gmap string string :=
  list_to_map
    [ ("lt", "<"); ("le", "<="); ("eq", "=="); ("ne", "!="); ("gt", ">"); ("ge", ">=") ].

Inductive literal :=
| Number (z : Z)
| Text (s : string).

Definition double_quote : string := String (Ascii.ascii_of_nat 34) EmptyString.

Definition format_literal (v : literal) : string :=
  match v with
  | Number z => pretty z
  | Text s => double_quote +:+ s +:+ double_quote
  end.

(** [text2symbol.get(o, o)]. *)
Definition text2symbol_get (o : string) : string := default o (text2symbol !! o).

Definition build_query (selection_config : list (string * (string * literal))) : string :=
  let queries :=
    map (fun item =>
           let '(k, (o, v)) := item in
           let o := text2symbol_get o in
           k +:+ " " +:+ o +:+ " " +:+ format_literal v)
        selection_config in
  "(" +:+ String.concat ") & (" queries +:+ ")".

(** ** The predictions (lines 47-83)

    A data frame is the list of its rows.  The entries of the predictions
    are floating point numbers: their type is left open, with [nan] for
    [np.nan], [exp] for [np.exp] on one entry and [times] for the product of
    two entries.  [convert_to_float32] and [check_valid_rows] are functions
    of [aict_tools.preprocessing]; a model is given by its [predict] method
    (by [predict_proba] for a classifier, as the list of the columns of the
    array it returns), which may raise. *)

(** [a[mask] = values] on a rank-1 array, for [mask] as long as [a] and as
    many values as the mask has true entries. *)
Fixpoint scatter {A} (a : list A) (mask : list bool) (values : list A) : list A :=
  match a, mask with
  | x :: a', m :: mask' =>
      if m then
        match values with
        | v :: values' => v :: scatter a' mask' values'
        | [] => x :: scatter a' mask' []
        end
      else x :: scatter a' mask' values
  | _, _ => a
  end.

(** [a[mask] = values]: numpy raises IndexError for a mask of another length
    than [a], broadcasts a single value and raises ValueError for any other
    number of values than the mask has true entries. *)
Definition mask_assign {A} (a : list A) (mask : list bool) (values : list A)
  : result (list A) :=
  if decide (length mask = length a) then
    if decide (length values = count_nonzero mask) then Ok (scatter a mask values)
    else match values with
         | [v] => Ok (scatter a mask (replicate (count_nonzero mask) v))
         | _ => Raise ShapeError
         end
  else Raise ShapeError.

(** The element-wise product of two rank-1 arrays, with the broadcasting of
    [logical_and]. *)
Definition multiply {A} (times : A -> A -> A) (a b : list A) : result (list A) :=
  if decide (length a = length b) then Ok (zip_with times a b)
  else match a, b with
       | _, [y] => Ok (map (fun x => times x y) a)
       | [x], _ => Ok (map (fun y => times x y) b)
       | _, _ => Raise ShapeError
       end.

Section predictions.

Context {features value : Type}.
Variable nan : value.
Variable exp : value -> value.
Variable times : value -> value -> value.
Variable convert_to_float32 : list features -> list features.
Variable check_valid_rows : list features -> list bool.

Definition predict_energy (df : list features)
    (model : list features -> result (list value)) (log_target : bool)
  : result (list value) :=
  let df_features := convert_to_float32 df in
  let valid := check_valid_rows df_features in
  let energy_prediction := replicate (length df_features) nan in
  try X <- boolean_index df_features valid;
  try predicted <- model X;
  try energy_prediction <- mask_assign energy_prediction valid predicted;
  if log_target then
    try selected <- boolean_index energy_prediction valid;
    mask_assign energy_prediction valid (map exp selected)
  else Ok energy_prediction.

Definition predict_disp (df : list features)
    (abs_model sign_model : list features -> result (list value)) (log_target : bool)
  : result (list value) :=
  let df_features := convert_to_float32 df in
  let valid := check_valid_rows df_features in
  try X <- boolean_index df_features valid;
  try disp_abs <- abs_model X;
  try X' <- boolean_index df_features valid;
  try disp_sign <- sign_model X';
  let disp_abs := if log_target then map exp disp_abs else disp_abs in
  let disp_prediction := replicate (length df_features) nan in
  try product <- multiply times disp_abs disp_sign;
  mask_assign disp_prediction valid product.

Definition predict_separator (df : list features)
    (predict_proba : list features -> result (list (list value)))
  : result (list value) :=
  let df_features := convert_to_float32 df in
  let valid := check_valid_rows df_features in
  let score := replicate (length df_features) nan in
  try X <- boolean_index df_features valid;
  try columns <- predict_proba X;
  match columns !! 1 with
  | Some column => mask_assign score valid column
  | None => Raise ShapeError  (* IndexError: index 1 is out of bounds for axis 1 *)
  end.

End predictions.

(** ** [klaas/scripts/apply_regression_model.py]: the datasets of the predictions

    What [main] does to the group [f[key]] of the data file: lines 43-51
    delete the predictions of an earlier run, lines 99-116 store the
    predictions of one chunk.  The two arrays of a chunk (lines 84-97, both of
    [len(df_data)] entries) and the bounds that [read_h5py_chunked] yields with
    it are inputs; cells are integers as everywhere in this development. *)

Module apply_regression_model.

(** The datasets of [f[key]] by name. *)
Abbreviation group := (gmap string dataset) (only parsing).

(** How the work ended: [main] returned, the user declined to overwrite
    ([click.Abort]), an exception was raised, or a statement resized or wrote
    a dataset that is not a growable rank-1 dataset, which h5py's answer is not
    modelled for. *)
Inductive outcome :=
| Returned
| Aborted
| Raised (e : exception)
| Foreign.

Record run := { file : group; ended : outcome }.

Definition and_then (r : run) (k : group -> run) : run :=
  match ended r with
  | Returned => k (file r)
  | _ => r
  end.

(** [d.resize(n, axis=0)] on the data of a growable rank-1 dataset: new cells
    hold the fill value 0. *)
Definition resize (data : list Z) (n : nat) : list Z :=
  take n data ++ replicate (n - length data) 0%Z.

(** [d[start:end] = values]: the bounds are clamped to the extent, nothing is
    written to an empty selection, a single value is broadcast and any other
    number of values than the selection has cells raises TypeError. *)
Definition setslice (name : string) (data : list Z) (start end_ : nat) (values : list Z)
  : result (list Z) :=
  let start := start `min` length data in
  let stop := end_ `min` length data in
  let count := stop - start in
  if decide (count = 0) then Ok data
  else if decide (length values = count) then
    Ok (take start data ++ values ++ drop stop data)
  else
    match values with
    | [v] => Ok (take start data ++ replicate count v ++ drop stop data)
    | _ => Raise (TypeError_assign name)
    end.

(** One statement [f[key][name].resize(...)] or [f[key][name][start:end] = ...]. *)
Definition on_dataset (f : group) (name : string) (op : list Z -> result (list Z)) : run :=
  match f !! name with
  | None => {| file := f; ended := Raised (KeyError name) |}
  | Some (Rank1 data) =>
      match op data with
      | Ok data => {| file := <[name := Rank1 data]> f; ended := Returned |}
      | Raise e => {| file := f; ended := Raised e |}
      end
  | Some _ => {| file := f; ended := Foreign |}
  end.

(** [f[key].create_dataset(name, data=data, maxshape=(None, ))]. *)
Definition create_dataset (f : group) (name : string) (data : list Z) : run :=
  match f !! name with
  | Some _ => {| file := f; ended := Raised (ValueError_create name) |}
  | None => {| file := <[name := Rank1 data]> f; ended := Returned |}
  end.

(** Lines 43-51; [confirmed] is the answer to the prompt, asked for without
    [--yes] only. *)
Definition delete_predictions (f : group) (yes confirmed : bool) : run :=
  match f !! "energy_prediction" with
  | Some _ =>
      if negb yes && negb confirmed then {| file := f; ended := Aborted |}
      else
        let f := delete "energy_prediction" f in
        match f !! "energy_prediction_std" with
        | Some _ => {| file := delete "energy_prediction_std" f; ended := Returned |}
        | None => {| file := f; ended := Raised (KeyError "energy_prediction_std") |}
        end
  | None => {| file := f; ended := Returned |}
  end.

(** What the loop has for one chunk when it opens the file. *)
Record chunk := {
  energy_prediction : list Z;
  energy_prediction_std : list Z;
  start : nat;
  end_ : nat
}.

(** Lines 99-116. *)
Definition store_predictions (f : group) (c : chunk) : run :=
  match f !! "energy_prediction" with
  | Some d =>
      match d with
      | Rank1 data =>
          let n_existing := length data in
          let n_new := length (energy_prediction c) in
          and_then (on_dataset f "energy_prediction"
                      (fun d => Ok (resize d (n_existing + n_new)))) (fun f =>
          and_then (on_dataset f "energy_prediction"
                      (fun d => setslice "energy_prediction" d (start c) (end_ c)
                                         (energy_prediction c))) (fun f =>
          and_then (on_dataset f "energy_prediction_std"
                      (fun d => Ok (resize d (n_existing + n_new)))) (fun f =>
          on_dataset f "energy_prediction_std"
                     (fun d => setslice "energy_prediction_std" d (start c) (end_ c)
                                        (energy_prediction_std c)))))
      | _ => {| file := f; ended := Foreign |}
      end
  | None =>
      and_then (create_dataset f "energy_prediction" (energy_prediction c)) (fun f =>
      create_dataset f "energy_prediction_std" (energy_prediction_std c))
  end.

(** The loop of lines 72-116 over the chunks. *)
Fixpoint for_chunks (f : group) (chunks : list chunk) : run :=
  match chunks with
  | [] => {| file := f; ended := Returned |}
  | c :: chunks => and_then (store_predictions f c) (fun f => for_chunks f chunks)
  end.

Definition main (f : group) (yes confirmed : bool) (chunks : list chunk) : run :=
  and_then (delete_predictions f yes confirmed) (fun f => for_chunks f chunks).

End apply_regression_model.

(** ** Notions used to state the properties *)

(** An entry that [create_mask_h5py] can evaluate on a group whose columns
    have [n_events] rows: one criterion, with a known operator, on a rank-1
    column. *)
Definition evaluable (infile : h5group) (n_events : nat) (c : entry) : Prop :=
  match c with
  | [(name, (operator, _))] =>
      is_Some (OPERATORS !! operator) ∧
      match getitem name infile with
      | Some (Rank1 data) => length data = n_events
      | _ => False
      end
  | _ => False
  end.

(** The same for [create_mask_table]: a scalar column whose cells are all
    present and scalar. *)
Definition evaluable_table (t : table) (c : entry) : Prop :=
  match c with
  | [(name, (operator, _))] =>
      is_Some (OPERATORS !! operator) ∧
      getitem name (description t) = Some scalar_col ∧
      Forall (fun r => ∃ z, row_getitem t r name = Ok (Scalar z)) (rows t)
  | _ => False
  end.

(** The criterion of an entry holds at row [i] of the h5py group. *)
Definition holds_at (infile : h5group) (i : nat) (c : entry) : Prop :=
  ∃ name operator value f data x,
    c = [(name, (operator, value))] ∧
    OPERATORS !! operator = Some f ∧
    getitem name infile = Some (Rank1 data) ∧
    data !! i = Some x ∧
    operator.call f x value = true.

(** The criterion of an entry holds at row [i] of the table. *)
Definition holds_at_row (t : table) (i : nat) (c : entry) : Prop :=
  ∃ name operator value f r z,
    c = [(name, (operator, value))] ∧
    OPERATORS !! operator = Some f ∧
    rows t !! i = Some r ∧
    row_getitem t r name = Ok (Scalar z) ∧
    operator.call f z value = true.

(** Rewriting the spelling ["="] of a criterion into ["=="]. *)
Definition spell_eq (c : string * criterion) : string * criterion :=
  let '(name, (operator, value)) := c in
  (name, (if decide (operator = "=") then "==" else operator, value)).

Definition spell_eq_config (sc : selection_config) : selection_config :=
  match sc with
  | LegacyDict d => LegacyDict (map spell_eq d)
  | EntryList l => EntryList (map (map spell_eq) l)
  end.

(** The layout of a column: its rank and, for rank 2, its second dimension. *)
Inductive layout :=
| scalar_layout
| vector_layout
| matrix_layout (width : nat)
| higher_layout (k : nat).

Definition layout_of (d : dataset) : layout :=
  match d with
  | Rank0 => scalar_layout
  | Rank1 _ => vector_layout
  | Rank2 width _ => matrix_layout width
  | RankHigh k _ => higher_layout k
  end.

(** The columns of a group with their layouts. *)
Definition schema (g : h5group) : list (string * layout) :=
  map (fun item => (fst item, layout_of (snd item))) g.

(** The ranks that the copy writes. *)
Definition supported (d : dataset) : bool :=
  match d with
  | Rank1 _ | Rank2 _ _ => true
  | _ => false
  end.

(** The parameter tables and the dependent tables of a file. *)
Definition parameter_tables (in_ : list node) : list table :=
  omap (fun n => match n with
                 | Table t => if decide (v_parent t = PARAMETERS) then Some t else None
                 | _ => None
                 end) in_.

Definition dependent_tables (in_ : list node) : list table :=
  omap (fun n => match n with
                 | Table t => if decide (v_parent t = PARAMETERS) then None else Some t
                 | _ => None
                 end) in_.

(** The key of a row: the numbers in its fields [obs_id] and [event_id]. *)
Definition key_of (t : table) (r : row) : option (Z * Z) :=
  match row_getitem t r "obs_id", row_getitem t r "event_id" with
  | Ok (Scalar obs_id), Ok (Scalar event_id) => Some (obs_id, event_id)
  | _, _ => None
  end.

(** A table exposes the key columns when each of its rows has a key. *)
Definition exposes_keys (t : table) : Prop :=
  Forall (fun r => is_Some (key_of t r)) (rows t).

(** A table that the second loop can go through: it exposes the key columns
    or has no column [event_id]. *)
Definition keyed (t : table) : Prop :=
  "event_id" ∈ colnames t → exposes_keys t.

Global Instance keyed_dec t : Decision (keyed t).
Proof. unfold keyed, exposes_keys. apply _. Defined.

(** The key of the row is in the set. *)
Definition survives (showers : gset (Z * Z)) (t : table) (r : row) : Prop :=
  match key_of t r with
  | Some key => key ∈ showers
  | None => False
  end.

Global Instance survives_dec showers t r : Decision (survives showers t r).
Proof. unfold survives. destruct (key_of t r); apply _. Defined.

(** What the cascade is to write for a dependent table: the rows whose key
    is in the set, in their order, if the table has the column [event_id],
    all rows otherwise. *)
Definition cascaded (showers : gset (Z * Z)) (t : table) : table :=
  {| v_parent := v_parent t; v_name := v_name t; description := description t;
     rows := if decide ("event_id" ∈ colnames t)
             then filter (survives showers t) (rows t)
             else rows t |}.

(** [(obs_id, event_id)] is the key of a row of a parameter table of the
    file at which every criterion of the selection holds. *)
Definition passing_key (in_ : list node) (sc : selection_config) (obs_id event_id : Z)
  : Prop :=
  ∃ t i r,
    t ∈ parameter_tables in_ ∧
    rows t !! i = Some r ∧
    Forall (holds_at_row t i) (as_entries sc) ∧
    row_getitem t r "obs_id" = Ok (Scalar obs_id) ∧
    row_getitem t r "event_id" = Ok (Scalar event_id).

(** The location of a table in a file. *)
Definition location (t : table) : string * string := (v_parent t, v_name t).

(** The rows of a column at which the mask holds, and the group made of
    the columns so reduced. *)
Definition select (mask : list bool) (d : dataset) : dataset :=
  match d with
  | Rank1 data => Rank1 (compress mask data)
  | Rank2 width data => Rank2 width (compress mask data)
  | other => other
  end.

Definition filtered (mask : list bool) (g : h5group) : h5group :=
  map (fun item => (fst item, select mask (snd item))) g.

(** A table as the data model has it: columns of rank 1 or 2 that all have
    [n_events] rows. *)
Definition well_formed (n_events : nat) (infile : h5group) : Prop :=
  Forall (fun item => supported (snd item) ∧ n_rows (snd item) = n_events) infile.

(** The columns that [create_dataset] accepts one after the other: distinct
    names, and a second dimension of at most 2. *)
Definition narrow (d : dataset) : bool :=
  match d with
  | Rank2 width _ => bool_decide (width <= 2)
  | _ => true
  end.

Definition creatable (infile : h5group) : Prop :=
  NoDup (map fst infile) ∧ Forall (fun item => narrow (snd item)) infile.

Global Instance creatable_dec infile : Decision (creatable infile).
Proof. unfold creatable. apply _. Defined.

(** What the first loop is to write for a parameter table: a table of the
    same name and description in the parameters group, with the rows at
    which the mask of the selection holds. *)
Definition selected_from (sc : selection_config) (t t' : table) : Prop :=
  v_parent t' = PARAMETERS ∧ v_name t' = v_name t ∧ description t' = description t ∧
  ∃ mask,
    create_mask_table t sc (length (rows t)) None None = Ok mask ∧
    length mask = length (rows t) ∧
    rows t' = compress mask (rows t).

(** The number of rows of a list of tables. *)
Definition total_rows (ts : list table) : nat :=
  sum_list_with (fun t => length (rows t)) ts.

(** Chunks that follow each other from row [first] on, each with one
    prediction and one standard deviation per row. *)
Fixpoint consecutive (first : nat) (chunks : list apply_regression_model.chunk) : Prop :=
  match chunks with
  | [] => True
  | c :: chunks =>
      apply_regression_model.start c = first
      ∧ apply_regression_model.end_ c
        = first + length (apply_regression_model.energy_prediction c)
      ∧ length (apply_regression_model.energy_prediction_std c)
        = length (apply_regression_model.energy_prediction c)
      ∧ consecutive (apply_regression_model.end_ c) chunks
  end.

(** The datasets of the predictions are absent, or both are growable
    rank-1 datasets. *)
Definition own_datasets (f : gmap string dataset) : Prop :=
  f !! "energy_prediction" = None
  ∨ ∃ data1 data2, f !! "energy_prediction" = Some (Rank1 data1)
                   ∧ f !! "energy_prediction_std" = Some (Rank1 data2).

(** ** Sample inputs

    The table of the scenarios: columns [x] and [y] with three rows (the
    values of [y] scaled to integers), the same table without rows, and
    variants with a column of another shape. *)

Definition events3 : h5group :=
  [("x", Rank1 [1; 2; 3]%Z); ("y", Rank1 [5; 15; 25]%Z)].

Definition events0 : h5group :=
  [("x", Rank1 []); ("y", Rank1 [])].

Definition x_gt_1 : entry := [("x", (">", 1%Z))].
Definition x_lt_3 : entry := [("x", ("<", 3%Z))].
Definition two_columns : entry := [("x", (">", 1%Z)); ("y", (">", 2%Z))].
Definition x_approx_1 : entry := [("x", ("~", 1%Z))].

Definition events3_cube : h5group :=
  events3 ++ [("cube", RankHigh 0 3)].

Definition events3_pair : h5group :=
  events3 ++ [("cog", Rank2 1 [[7]; [8]; [9]]%Z)].

(** A DL1 file: one parameter table whose rows have the keys (1,1), (1,2),
    (2,1), an image table with the keys (1,1), (1,2), (2,1), (2,2) and a
    table without key columns. *)

Definition tel_001 : table :=
  {| v_parent := PARAMETERS; v_name := "tel_001";
     description := [("obs_id", scalar_col); ("event_id", scalar_col); ("x", scalar_col)];
     rows := [ [Scalar 1; Scalar 1; Scalar 5];
               [Scalar 1; Scalar 2; Scalar 0];
               [Scalar 2; Scalar 1; Scalar 7] ]%Z |}.

Definition images_001 : table :=
  {| v_parent := "/dl1/event/telescope/images"; v_name := "tel_001";
     description := [("obs_id", scalar_col); ("event_id", scalar_col); ("image", vector_col 2)];
     rows := [ [Scalar 1; Scalar 1; Vector [10; 11]];
               [Scalar 1; Scalar 2; Vector [20; 21]];
               [Scalar 2; Scalar 1; Vector [30; 31]];
               [Scalar 2; Scalar 2; Vector [40; 41]] ]%Z |}.

Definition optics : table :=
  {| v_parent := "/configuration/instrument"; v_name := "optics";
     description := [("mirror_area", scalar_col)];
     rows := [ [Scalar 12]; [Scalar 88] ]%Z |}.

(** [walk_nodes()] yields the root, then the children of one group after the
    other, by name; the groups follow each other as [walk_groups()] has
    them, which goes into the last group of a level first: the tables of
    [/dl1] come before the table of [/configuration]. *)
Definition dl1_file : list node :=
  [ Group "" "/";
    Group "/" "configuration";
    Group "/" "dl1";
    Group "/configuration" "instrument";
    Group "/dl1" "event";
    Group "/dl1/event" "telescope";
    Group "/dl1/event/telescope" "images";
    Group "/dl1/event/telescope" "parameters";
    Table images_001;
    Table tel_001;
    Table optics ].

(** A table with the column [event_id], without [obs_id] and without rows,
    and a file that holds it next to the parameter table. *)
Definition trigger : table :=
  {| v_parent := "/dl1/event/subarray"; v_name := "trigger";
     description := [("event_id", scalar_col); ("time", scalar_col)];
     rows := [] |}.

Definition trigger_file : list node :=
  [ Group "/dl1/event" "subarray";
    Table trigger;
    Group "/dl1/event/telescope" "parameters";
    Table tel_001 ].

(** The same table with one row, in the same file. *)
Definition trigger1 : table :=
  {| v_parent := "/dl1/event/subarray"; v_name := "trigger";
     description := [("event_id", scalar_col); ("time", scalar_col)];
     rows := [ [Scalar 1; Scalar 1000] ]%Z |}.

Definition trigger1_file : list node :=
  [ Group "/dl1/event" "subarray";
    Table trigger1;
    Group "/dl1/event/telescope" "parameters";
    Table tel_001 ].

(** A file whose table [/dl1/event/subarray/trigger] has the column
    [event_id], no column [obs_id] and one row. *)
Definition subarray_file : list node :=
  [ Group "" "/";
    Group "/" "dl1";
    Group "/dl1" "event";
    Group "/dl1/event" "subarray";
    Group "/dl1/event" "telescope";
    Table trigger1;
    Group "/dl1/event/telescope" "parameters";
    Table tel_001 ].

(** Two chunks of two rows and one row. *)
Definition chunk_0_2 : apply_regression_model.chunk :=
  {| apply_regression_model.energy_prediction := [10; 20]%Z;
     apply_regression_model.energy_prediction_std := [1; 2]%Z;
     apply_regression_model.start := 0;
     apply_regression_model.end_ := 2 |}.

Definition chunk_2_3 : apply_regression_model.chunk :=
  {| apply_regression_model.energy_prediction := [30]%Z;
     apply_regression_model.energy_prediction_std := [3]%Z;
     apply_regression_model.start := 2;
     apply_regression_model.end_ := 3 |}.

(** A group with one column and the predictions of an earlier run. *)
Definition predicted_before : gmap string dataset :=
  <["energy_prediction_std" := Rank1 [7; 7; 7; 7]%Z]>
    (<["energy_prediction" := Rank1 [5; 5; 5; 5]%Z]>
       (<["size" := Rank1 [100; 200; 300]%Z]> ∅)).

(** A group with one column and the standard deviations of an earlier run
    only. *)
Definition std_left_over : gmap string dataset :=
  <["energy_prediction_std" := Rank1 [7; 7; 7]%Z]>
    (<["size" := Rank1 [100; 200; 300]%Z]> ∅).

(** * Properties *)

(** ** Results and the mask evaluators *)

Lemma cuts_h5py_app infile start end_ pre post mask :
  cuts_h5py infile start end_ (pre ++ post) mask =
  bind (cuts_h5py infile start end_ pre mask) (cuts_h5py infile start end_ post).
Proof.
  revert mask. induction pre as [|c pre IH]; intros mask; simpl; [done|].
  destruct (cut_h5py infile start end_ c mask) as [mask'|e]; simpl; [apply IH|done].
Qed.

Lemma cuts_table_app t start end_ pre post mask :
  cuts_table t start end_ (pre ++ post) mask =
  bind (cuts_table t start end_ pre mask) (cuts_table t start end_ post).
Proof.
  revert mask. induction pre as [|c pre IH]; intros mask; simpl; [done|].
  destruct (cut_table t start end_ c mask) as [mask'|e]; simpl; [apply IH|done].
Qed.

Lemma length_slice {A} (start end_ : nat) (a : list A) :
  end_ <= length a → length (slice start end_ a) = end_ - start.
Proof. intros H. unfold slice. rewrite length_take, length_drop. lia. Qed.

Lemma logical_and_same_length a b :
  length a = length b →
  logical_and a b = Ok (zip_with andb a b).
Proof. intros H. unfold logical_and. by rewrite decide_True. Qed.

Lemma cut_h5py_evaluable infile n_events start end_ c mask :
  evaluable infile n_events c → end_ <= n_events → length mask = end_ - start →
  ∃ mask', cut_h5py infile start end_ c mask = Ok mask' ∧ length mask' = end_ - start.
Proof.
  intros Hc Hend Hlen. unfold evaluable in Hc.
  destruct c as [|[name [operator value]] [|]]; try done.
  destruct Hc as [[f Hf] Hcol]. simpl. rewrite Hf.
  destruct (getitem name infile) as [[data| | |]|]; try done. simpl.
  rewrite logical_and_same_length.
  - eexists; split; [done|].
    rewrite length_zip_with, length_map, length_slice by lia. lia.
  - rewrite length_map, length_slice by lia. done.
Qed.

Lemma cuts_h5py_evaluable infile n_events start end_ cs mask :
  Forall (evaluable infile n_events) cs → end_ <= n_events → length mask = end_ - start →
  ∃ mask', cuts_h5py infile start end_ cs mask = Ok mask' ∧ length mask' = end_ - start.
Proof.
  intros Hcs Hend. revert mask. induction Hcs as [|c cs Hc _ IH]; intros mask Hlen; simpl.
  - by exists mask.
  - destruct (cut_h5py_evaluable _ _ _ _ _ _ Hc Hend Hlen) as (m1 & -> & Hm1). simpl.
    by apply IH.
Qed.

Lemma start_or_0_Some start : start_or_0 (Some start) = start.
Proof. by destruct start. Qed.

Lemma end_or_n_events_Some n_events end_ :
  0 < end_ → end_ <= n_events → end_or_n_events n_events (Some end_) = end_.
Proof. intros Hpos Hle. destruct end_; simpl; lia. Qed.

Lemma n_chunks_pos n_events chunksize :
  0 < n_events → 0 < chunksize → ∃ k, n_chunks n_events chunksize = S k.
Proof.
  intros Hn Hc. unfold n_chunks.
  assert (1 <= (n_events + chunksize - 1) / chunksize) as H.
  { apply Nat.div_le_lower_bound; lia. }
  exists (Nat.pred ((n_events + chunksize - 1) / chunksize)). lia.
Qed.

(** The first chunk of a table with rows is evaluated, whatever the chunk
    size: an exception of its mask ends the call with the output group
    created and still empty. *)
Lemma first_mask_raises n_events infile sc chunksize e :
  0 < n_events → 0 < chunksize →
  create_mask_h5py infile sc n_events (Some 0) (Some (min n_events chunksize)) = Raise e →
  apply_cuts_h5py_chunked n_events infile sc chunksize =
  {| outfile := Some []; raised := Some e |}.
Proof.
  intros Hn Hc Hmask. unfold apply_cuts_h5py_chunked.
  destruct (n_chunks_pos _ _ Hn Hc) as [k ->].
  destruct chunksize as [|c]; [lia|].
  simpl seq. unfold for_chunks, copy_chunk.
  replace ((0 + 1) * S c) with (S c) by lia. replace (0 * S c) with 0 by lia.
  by rewrite Hmask.
Qed.

Lemma first_mask_bad_entry n_events infile sc chunksize pre c post e :
  0 < n_events → 0 < chunksize →
  as_entries sc = pre ++ c :: post →
  Forall (evaluable infile n_events) pre →
  (∀ mask, cut_h5py infile 0 (min n_events chunksize) c mask = Raise e) →
  apply_cuts_h5py_chunked n_events infile sc chunksize =
  {| outfile := Some []; raised := Some e |}.
Proof.
  intros Hn Hc Hsc Hpre Hbad. apply first_mask_raises; [done..|].
  unfold create_mask_h5py. rewrite start_or_0_Some, end_or_n_events_Some by lia.
  unfold ones. rewrite decide_False by lia. simpl. rewrite Hsc, cuts_h5py_app.
  destruct (cuts_h5py_evaluable infile n_events 0 (min n_events chunksize) pre
              (replicate (min n_events chunksize - 0) true) Hpre)
    as (m & -> & _); [lia|by rewrite length_replicate|].
  simpl. by rewrite Hbad.
Qed.

(** ** Configuration errors *)

(** C6, as the code has it: the entries are checked one by one while the mask
    of a chunk is computed.  On a table with at least one row, an entry that
    names more than one column, after entries that evaluate, ends the call
    with the ValueError of line 106 during the first chunk: the output file
    has been opened and its group created, and no column has been written. *)
Theorem several_columns_raise n_events infile sc chunksize pre c post :
  0 < n_events → 0 < chunksize →
  as_entries sc = pre ++ c :: post →
  Forall (evaluable infile n_events) pre →
  1 < length c →
  apply_cuts_h5py_chunked n_events infile sc chunksize =
  {| outfile := Some []; raised := Some ValueError_single_entry |}.
Proof.
  intros Hn Hc Hsc Hpre Hlen.
  apply (first_mask_bad_entry _ _ _ _ pre c post); [done..|].
  intros mask. destruct c as [|? [|? ?]]; simpl in *; (lia || done).
Qed.

(** C7, as the code has it: on a table with at least one row, an entry whose
    operator is not a key of [OPERATORS], after entries that evaluate, ends
    the call with the KeyError of that operator during the first chunk; the
    output group is created and empty. *)
Theorem unknown_operator_raises n_events infile sc chunksize pre name operator value post :
  0 < n_events → 0 < chunksize →
  as_entries sc = pre ++ [(name, (operator, value))] :: post →
  Forall (evaluable infile n_events) pre →
  OPERATORS !! operator = None →
  apply_cuts_h5py_chunked n_events infile sc chunksize =
  {| outfile := Some []; raised := Some (KeyError operator) |}.
Proof.
  intros Hn Hc Hsc Hpre Hop.
  apply (first_mask_bad_entry _ _ _ _ pre [(name, (operator, value))] post); [done..|].
  intros mask. simpl. by rewrite Hop.
Qed.

Lemma several_columns_raise_witness :
  apply_cuts_h5py_chunked 3 events3 (EntryList [x_gt_1; two_columns; x_lt_3]) 2 =
  {| outfile := Some []; raised := Some ValueError_single_entry |}.
Proof.
  apply (several_columns_raise 3 events3 _ 2 [x_gt_1] two_columns [x_lt_3]).
  - lia.
  - lia.
  - reflexivity.
  - constructor; [|constructor]. split; [by eexists|reflexivity].
  - simpl. lia.
Defined.

(** C6 as stated fails: on a table without rows no chunk is evaluated, so the
    entry with two columns is never looked at and the call returns; and on a
    table with rows the output file is already open when the entry is
    refused. *)
Lemma several_columns_not_detected :
  apply_cuts_h5py_chunked 0 events0 (EntryList [two_columns]) 1000 =
    {| outfile := Some []; raised := None |} ∧
  outfile (apply_cuts_h5py_chunked 3 events3 (EntryList [two_columns]) 1000) ≠ None.
Proof. split; [reflexivity|discriminate]. Qed.

Lemma unknown_operator_raises_witness :
  apply_cuts_h5py_chunked 3 events3 (EntryList [x_gt_1; x_approx_1]) 2 =
  {| outfile := Some []; raised := Some (KeyError "~") |}.
Proof.
  apply (unknown_operator_raises 3 events3 _ 2 [x_gt_1] "x" "~" 1%Z []).
  - lia.
  - lia.
  - reflexivity.
  - constructor; [|constructor]. split; [by eexists|reflexivity].
  - reflexivity.
Defined.

(** C7 as stated fails: on a table without rows the operator is never looked
    up and the call returns; and on a table with rows the output file is
    already open when the operator is looked up. *)
Lemma unknown_operator_not_detected :
  apply_cuts_h5py_chunked 0 events0 (EntryList [x_approx_1]) 1000 =
    {| outfile := Some []; raised := None |} ∧
  outfile (apply_cuts_h5py_chunked 3 events3 (EntryList [x_approx_1]) 1000) ≠ None.
Proof. split; [reflexivity|discriminate]. Qed.

(** ** The spelling ["="] *)

Lemma as_entries_spell_eq sc :
  as_entries (spell_eq_config sc) = map (map spell_eq) (as_entries sc).
Proof.
  destruct sc as [d|l]; simpl; [|done].
  induction d as [|kv d IH]; simpl; [done|]. by rewrite IH.
Qed.

Lemma cut_h5py_spell_eq infile start end_ c mask :
  cut_h5py infile start end_ (map spell_eq c) mask = cut_h5py infile start end_ c mask.
Proof.
  destruct c as [|[name [operator value]] [|? ?]]; [done| |done].
  cbn -[OPERATORS lookup].
  destruct (decide (operator = "=")) as [->|_]; reflexivity.
Qed.

Lemma cut_table_spell_eq t start end_ c mask :
  cut_table t start end_ (map spell_eq c) mask = cut_table t start end_ c mask.
Proof.
  destruct c as [|[name [operator value]] [|? ?]]; [done| |done].
  cbn -[OPERATORS lookup].
  destruct (decide (operator = "=")) as [->|_]; reflexivity.
Qed.

Lemma create_mask_h5py_spell_eq infile sc n_events start end_ :
  create_mask_h5py infile (spell_eq_config sc) n_events start end_ =
  create_mask_h5py infile sc n_events start end_.
Proof.
  unfold create_mask_h5py. rewrite as_entries_spell_eq.
  destruct (ones _ _) as [mask|e]; simpl; [|done].
  revert mask. induction (as_entries sc) as [|c cs IH]; intros mask; simpl; [done|].
  rewrite cut_h5py_spell_eq.
  destruct (cut_h5py _ _ _ c mask); simpl; [apply IH|done].
Qed.

Lemma create_mask_table_spell_eq t sc n_events start end_ :
  create_mask_table t (spell_eq_config sc) n_events start end_ =
  create_mask_table t sc n_events start end_.
Proof.
  unfold create_mask_table. rewrite as_entries_spell_eq.
  destruct (ones _ _) as [mask|e]; simpl; [|done].
  revert mask. induction (as_entries sc) as [|c cs IH]; intros mask; simpl; [done|].
  rewrite cut_table_spell_eq.
  destruct (cut_table _ _ _ c mask); simpl; [apply IH|done].
Qed.

(** C10: ["="] is a key of [OPERATORS] with the same function as ["=="], and
    a configuration in which criteria are spelled with ["="] gives the same
    masks, the same filtered copy and the same cascade as the configuration
    with these criteria spelled ["=="]. *)
Theorem single_equals_sign_is_equality :
  OPERATORS !! "=" = Some operator.eq ∧
  OPERATORS !! "=" = OPERATORS !! "==" ∧
  ∀ sc,
    (∀ infile n_events start end_,
       create_mask_h5py infile sc n_events start end_ =
       create_mask_h5py infile (spell_eq_config sc) n_events start end_) ∧
    (∀ t n_events start end_,
       create_mask_table t sc n_events start end_ =
       create_mask_table t (spell_eq_config sc) n_events start end_) ∧
    (∀ n_events infile chunksize,
       apply_cuts_h5py_chunked n_events infile sc chunksize =
       apply_cuts_h5py_chunked n_events infile (spell_eq_config sc) chunksize) ∧
    (∀ in_ out0,
       apply_cuts_cta_dl1 in_ out0 sc = apply_cuts_cta_dl1 in_ out0 (spell_eq_config sc)).
Proof.
  split; [reflexivity|]. split; [reflexivity|]. intros sc. repeat split.
  - intros. by rewrite create_mask_h5py_spell_eq.
  - intros. by rewrite create_mask_table_spell_eq.
  - intros n_events infile chunksize. unfold apply_cuts_h5py_chunked.
    destruct chunksize as [|c]; [done|].
    assert (∀ chunks group,
      for_chunks infile sc n_events (S c) chunks group =
      for_chunks infile (spell_eq_config sc) n_events (S c) chunks group) as ->; [|done].
    induction chunks as [|chunk chunks IH]; intros group; [done|].
    cbn [for_chunks]. unfold copy_chunk. rewrite create_mask_h5py_spell_eq.
    destruct (create_mask_h5py _ _ _ _ _); [|done].
    destruct chunk; destruct (for_columns _ _ _) as [g [e|]]; auto.
  - intros in_ out0. unfold apply_cuts_cta_dl1, parameter_phase.
    destruct (parameters in_) as [children|e]; [|done].
    assert (∀ st,
      for_parameters sc children st = for_parameters (spell_eq_config sc) children st)
      as ->; [|done].
    induction children as [|n children IH]; intros st; [done|].
    cbn [for_parameters]. unfold cut_parameters.
    destruct n as [| t |]; [done| |done].
    rewrite create_mask_table_spell_eq.
    destruct (create_table _ _ _); [|done].
    destruct (create_mask_table _ _ _ _ _); [|done].
    destruct (select_rows _ _ _) as [sel [e|]]; auto.
Qed.

(** ** The mask is the conjunction of the criteria *)

Lemma map_fmap {A B} (f : A -> B) (l : list A) : map f l = f <$> l.
Proof. reflexivity. Qed.

Lemma lookup_slice {A} (start end_ i : nat) (a : list A) :
  i < end_ - start → slice start end_ a !! i = a !! (start + i).
Proof. intros Hi. unfold slice. by rewrite lookup_take_lt, lookup_drop. Qed.

Lemma cut_h5py_spec infile n_events start end_ c mask :
  evaluable infile n_events c → end_ <= n_events → length mask = end_ - start →
  ∃ mask', cut_h5py infile start end_ c mask = Ok mask' ∧ length mask' = end_ - start ∧
    ∀ i, i < end_ - start →
      (mask' !! i = Some true ↔ mask !! i = Some true ∧ holds_at infile (start + i) c).
Proof.
  intros Hc Hend Hlen. unfold evaluable in Hc.
  destruct c as [|[name [operator value]] [|]]; try done.
  destruct Hc as [[f Hf] Hcol].
  destruct (getitem name infile) as [[data| | |]|] eqn:Hget; try done.
  cbn [cut_h5py]. rewrite Hf, Hget. cbn [compare_column bind].
  rewrite logical_and_same_length by (by rewrite length_map, length_slice by lia).
  eexists; split; [done|]. split.
  { rewrite length_zip_with, length_map, length_slice by lia. lia. }
  intros i Hi. rewrite lookup_zip_with.
  destruct (lookup_lt_is_Some_2 mask i) as [b Hb]; [lia|].
  destruct (lookup_lt_is_Some_2 data (start + i)) as [x Hx]; [lia|].
  rewrite Hb. simpl. rewrite map_fmap, list_lookup_fmap, lookup_slice, Hx by done. simpl.
  split.
  - intros [= Hand]. apply andb_true_iff in Hand as [-> Hcall]. split; [done|].
    by exists name, operator, value, f, data, x.
  - intros [[= ->] (name' & op' & v' & f' & data' & x' & ? & Hf' & Hget' & Hx' & Hcall)].
    simplify_eq. by rewrite Hcall.
Qed.

Lemma cuts_h5py_spec infile n_events start end_ cs mask :
  Forall (evaluable infile n_events) cs → end_ <= n_events → length mask = end_ - start →
  ∃ mask', cuts_h5py infile start end_ cs mask = Ok mask' ∧ length mask' = end_ - start ∧
    ∀ i, i < end_ - start →
      (mask' !! i = Some true ↔
       mask !! i = Some true ∧ Forall (holds_at infile (start + i)) cs).
Proof.
  intros Hcs Hend. revert mask. induction Hcs as [|c cs Hc _ IH]; intros mask Hlen.
  - exists mask. split; [done|]. split; [done|]. intros i _. split; [by intros ->|tauto].
  - destruct (cut_h5py_spec _ _ _ _ _ _ Hc Hend Hlen) as (m1 & Hm1 & Hlen1 & Hspec1).
    destruct (IH m1 Hlen1) as (m2 & Hm2 & Hlen2 & Hspec2).
    exists m2. cbn [cuts_h5py]. rewrite Hm1. simpl. split; [done|]. split; [done|].
    intros i Hi. rewrite Hspec2, Hspec1, Forall_cons by done. tauto.
Qed.

Lemma col_of_scalars t name rs :
  Forall (fun r => ∃ z, row_getitem t r name = Ok (Scalar z)) rs →
  ∃ zs, col_of t name rs = Ok (Scalar <$> zs) ∧ length zs = length rs ∧
    ∀ i r, rs !! i = Some r →
      ∃ z, zs !! i = Some z ∧ row_getitem t r name = Ok (Scalar z).
Proof.
  induction 1 as [|r rs [z Hz] _ (zs & Hzs & Hlen & Hspec)].
  - exists []. split; [done|]. split; [done|]. intros i r. by rewrite lookup_nil.
  - exists (z :: zs). cbn [col_of]. rewrite Hz, Hzs. simpl. rewrite Hlen.
    split; [done|]. split; [done|]. intros [|i] r'; simpl.
    + intros [= <-]. by exists z.
    + apply Hspec.
Qed.

Lemma compare_cells_scalars f zs value :
  compare_cells f (Scalar <$> zs) value = Ok ((fun z => operator.call f z value) <$> zs).
Proof.
  induction zs as [|z zs IH]; [done|].
  rewrite !fmap_cons. cbn [compare_cells]. by rewrite IH.
Qed.

Lemma slice_fmap {A B} (f : A -> B) start end_ (a : list A) :
  slice start end_ (f <$> a) = f <$> slice start end_ a.
Proof. unfold slice. by rewrite fmap_take, fmap_drop. Qed.

Lemma getitem_Some_elem_of {A} name (g : list (string * A)) v :
  getitem name g = Some v → name ∈ map fst g.
Proof.
  induction g as [|[k w] g IH]; simpl; [done|].
  case_decide as Hk; [subst; intros _; apply list_elem_of_here|].
  intros H. apply list_elem_of_further. by apply IH.
Qed.

Lemma cut_table_spec t start end_ c mask :
  evaluable_table t c → end_ <= length (rows t) → length mask = end_ - start →
  ∃ mask', cut_table t start end_ c mask = Ok mask' ∧ length mask' = end_ - start ∧
    ∀ i, i < end_ - start →
      (mask' !! i = Some true ↔ mask !! i = Some true ∧ holds_at_row t (start + i) c).
Proof.
  intros Hc Hend Hlen. unfold evaluable_table in Hc.
  destruct c as [|[name [operator value]] [|]]; try done.
  destruct Hc as ([f Hf] & Hdesc & Hrows).
  destruct (col_of_scalars _ _ _ Hrows) as (zs & Hzs & Hlenzs & Hspec).
  cbn [cut_table]. rewrite decide_True by (by eapply getitem_Some_elem_of).
  rewrite Hf. unfold compare_table_column, col. rewrite Hdesc, Hzs. cbn [bind].
  rewrite slice_fmap, compare_cells_scalars. cbn [bind].
  rewrite logical_and_same_length by (by rewrite length_fmap, length_slice by lia).
  eexists; split; [done|]. split.
  { rewrite length_zip_with, length_fmap, length_slice by lia. lia. }
  intros i Hi. rewrite lookup_zip_with.
  destruct (lookup_lt_is_Some_2 mask i) as [b Hb]; [lia|].
  destruct (lookup_lt_is_Some_2 (rows t) (start + i)) as [r Hr]; [lia|].
  destruct (Hspec _ _ Hr) as (z & Hz & Hget).
  rewrite Hb. simpl. rewrite list_lookup_fmap, lookup_slice, Hz by done. simpl.
  split.
  - intros [= Hand]. apply andb_true_iff in Hand as [-> Hcall]. split; [done|].
    by exists name, operator, value, f, r, z.
  - intros [[= ->] (name' & op' & v' & f' & r' & z' & ? & Hf' & Hr' & Hget' & Hcall)].
    simplify_eq. rewrite Hget in Hget'. injection Hget' as <-. by rewrite Hcall.
Qed.

Lemma cuts_table_spec t start end_ cs mask :
  Forall (evaluable_table t) cs → end_ <= length (rows t) → length mask = end_ - start →
  ∃ mask', cuts_table t start end_ cs mask = Ok mask' ∧ length mask' = end_ - start ∧
    ∀ i, i < end_ - start →
      (mask' !! i = Some true ↔
       mask !! i = Some true ∧ Forall (holds_at_row t (start + i)) cs).
Proof.
  intros Hcs Hend. revert mask. induction Hcs as [|c cs Hc _ IH]; intros mask Hlen.
  - exists mask. split; [done|]. split; [done|]. intros i _. split; [by intros ->|tauto].
  - destruct (cut_table_spec _ _ _ _ _ Hc Hend Hlen) as (m1 & Hm1 & Hlen1 & Hspec1).
    destruct (IH m1 Hlen1) as (m2 & Hm2 & Hlen2 & Hspec2).
    exists m2. cbn [cuts_table]. rewrite Hm1. simpl. split; [done|]. split; [done|].
    intros i Hi. rewrite Hspec2, Hspec1, Forall_cons by done. tauto.
Qed.

(** C2: for a chunk [[start, end)] of the table and a configuration whose
    entries each hold one criterion with a known operator on an existing
    column of numbers, both mask evaluators return a mask of [end - start]
    entries whose entry [i] is true exactly when every criterion holds at row
    [start + i]. *)
Theorem mask_is_conjunction sc n_events start end_ :
  start < end_ → end_ <= n_events →
  (∀ infile,
     Forall (evaluable infile n_events) (as_entries sc) →
     ∃ mask, create_mask_h5py infile sc n_events (Some start) (Some end_) = Ok mask ∧
       length mask = end_ - start ∧
       ∀ i, i < end_ - start →
         (mask !! i = Some true ↔ Forall (holds_at infile (start + i)) (as_entries sc))) ∧
  (∀ t,
     length (rows t) = n_events →
     Forall (evaluable_table t) (as_entries sc) →
     ∃ mask, create_mask_table t sc n_events (Some start) (Some end_) = Ok mask ∧
       length mask = end_ - start ∧
       ∀ i, i < end_ - start →
         (mask !! i = Some true ↔ Forall (holds_at_row t (start + i)) (as_entries sc))).
Proof.
  intros Hlt Hle. split.
  - intros infile Hsc. unfold create_mask_h5py.
    rewrite start_or_0_Some, end_or_n_events_Some by lia.
    unfold ones. rewrite decide_False by lia. cbn [bind].
    destruct (cuts_h5py_spec infile n_events start end_ (as_entries sc)
                (replicate (end_ - start) true) Hsc Hle)
      as (mask & Hmask & Hlen & Hspec); [by rewrite length_replicate|].
    exists mask. split; [done|]. split; [done|].
    intros i Hi. rewrite Hspec, lookup_replicate_2 by done. tauto.
  - intros t Hrows Hsc. unfold create_mask_table.
    rewrite start_or_0_Some, end_or_n_events_Some by lia.
    unfold ones. rewrite decide_False by lia. cbn [bind].
    destruct (cuts_table_spec t start end_ (as_entries sc)
                (replicate (end_ - start) true) Hsc)
      as (mask & Hmask & Hlen & Hspec); [lia|by rewrite length_replicate|].
    exists mask. split; [done|]. split; [done|].
    intros i Hi. rewrite Hspec, lookup_replicate_2 by done. tauto.
Qed.

Lemma mask_is_conjunction_witness :
  (∃ mask, create_mask_h5py events3 (EntryList [x_gt_1; x_lt_3]) 3 (Some 1) (Some 3)
           = Ok mask ∧
     length mask = 3 - 1 ∧
     ∀ i, i < 3 - 1 →
       (mask !! i = Some true ↔ Forall (holds_at events3 (1 + i)) [x_gt_1; x_lt_3])) ∧
  (∃ mask, create_mask_table tel_001 (EntryList [x_gt_1; x_lt_3]) 3 (Some 1) (Some 3)
           = Ok mask ∧
     length mask = 3 - 1 ∧
     ∀ i, i < 3 - 1 →
       (mask !! i = Some true ↔ Forall (holds_at_row tel_001 (1 + i)) [x_gt_1; x_lt_3])).
Proof.
  destruct (mask_is_conjunction (EntryList [x_gt_1; x_lt_3]) 3 1 3) as [Hh5 Htable];
    [lia|lia|].
  split.
  - apply Hh5. repeat constructor; by eexists.
  - apply Htable; [reflexivity|]. repeat constructor; by eexists.
Defined.

Example mask_of_second_chunk :
  create_mask_h5py events3 (EntryList [x_gt_1; x_lt_3]) 3 (Some 1) (Some 3)
  = Ok [true; false].
Proof. reflexivity. Qed.

(** ** The chunked copy on the table of the scenarios *)

Example one_criterion :
  apply_cuts_h5py_chunked 3 events3 (EntryList [x_gt_1]) 1000 =
  {| outfile := Some [("x", Rank1 [2; 3]%Z); ("y", Rank1 [15; 25]%Z)]; raised := None |}.
Proof. reflexivity. Qed.

Example one_row_per_chunk :
  apply_cuts_h5py_chunked 3 events3 (EntryList [x_gt_1]) 1 =
  apply_cuts_h5py_chunked 3 events3 (EntryList [x_gt_1]) 10.
Proof. reflexivity. Qed.

Example two_criteria_on_one_column :
  apply_cuts_h5py_chunked 3 events3 (EntryList [x_gt_1; x_lt_3]) 2 =
  {| outfile := Some [("x", Rank1 [2]%Z); ("y", Rank1 [15]%Z)]; raised := None |}.
Proof. reflexivity. Qed.

Example legacy_dict :
  apply_cuts_h5py_chunked 3 events3 (LegacyDict [("x", (">", 1%Z)); ("y", ("le", 15%Z))]) 2 =
  {| outfile := Some [("x", Rank1 [2]%Z); ("y", Rank1 [15]%Z)]; raised := None |}.
Proof. reflexivity. Qed.

(** ** The chunked copy: what the first chunk creates *)

Lemma for_chunks_first n_events infile sc chunksize :
  0 < n_events → 0 < chunksize →
  ∃ k, n_chunks n_events chunksize = S k ∧
    for_chunks infile sc n_events chunksize (seq 0 (S k)) [] =
    match create_mask_h5py infile sc n_events (Some 0) (Some (min n_events chunksize)) with
    | Raise e => ([], Some e)
    | Ok mask =>
        match for_columns (first_chunk_column 0 (min n_events chunksize) mask) infile [] with
        | (group, None) => for_chunks infile sc n_events chunksize (seq 1 k) group
        | stopped => stopped
        end
    end.
Proof.
  intros Hn Hc. destruct (n_chunks_pos _ _ Hn Hc) as [k Hk]. exists k. split; [done|].
  cbn [seq for_chunks]. unfold copy_chunk.
  replace ((0 + 1) * chunksize) with chunksize by lia.
  replace (0 * chunksize) with 0 by lia.
  destruct (create_mask_h5py _ _ _ _ _) as [mask|e]; [|done].
  by destruct (for_columns _ _ _) as [group [e|]].
Qed.

Lemma wide_column_stops start end_ mask items group name width data :
  (name, Rank2 width data) ∈ items → 2 < width →
  ∃ group' e,
    for_columns (first_chunk_column start end_ mask) items group = (group', Some e).
Proof.
  intros Hin Hwide. revert group.
  induction items as [|item items IH]; intros group; [by apply elem_of_nil in Hin|].
  cbn [for_columns]. apply elem_of_cons in Hin as [<-|Hin].
  - cbn [first_chunk_column].
    destruct (boolean_index _ _) as [selected|e]; cbn [bind]; [|by eauto].
    unfold create_dataset. destruct (getitem name group); [by eauto|].
    rewrite decide_False by lia. by eauto.
  - destruct (first_chunk_column start end_ mask item group) as [group' [e|]]; [by eauto|].
    by apply IH.
Qed.

(** C8, as the code has it: the rank-2 output is created with
    [maxshape=(None, 2)], which bounds the second dimension by 2 from above.
    On a table with at least one row, a rank-2 column whose second dimension
    is greater than 2 makes the copy raise, for every selection and chunk
    size. *)
Theorem wide_column_raises n_events infile sc chunksize name width data :
  0 < n_events → 0 < chunksize →
  (name, Rank2 width data) ∈ infile → 2 < width →
  ∃ e, raised (apply_cuts_h5py_chunked n_events infile sc chunksize) = Some e.
Proof.
  intros Hn Hc Hin Hwide. unfold apply_cuts_h5py_chunked.
  destruct chunksize as [|c]; [lia|].
  destruct (for_chunks_first n_events infile sc (S c) Hn Hc) as (k & -> & ->).
  destruct (create_mask_h5py _ _ _ _ _) as [mask|e]; [|by eauto].
  destruct (wide_column_stops 0 (min n_events (S c)) mask infile [] _ _ _ Hin Hwide)
    as (group' & e & ->).
  by eauto.
Qed.

Lemma wide_column_raises_witness :
  ∃ e, raised (apply_cuts_h5py_chunked 3
                 (events3 ++ [("rgb", Rank2 3 [[1; 2; 3]; [4; 5; 6]; [7; 8; 9]]%Z)])
                 (EntryList [x_gt_1]) 2) = Some e.
Proof.
  apply (wide_column_raises 3 _ _ 2 "rgb" 3 [[1; 2; 3]; [4; 5; 6]; [7; 8; 9]]%Z).
  - lia.
  - lia.
  - do 2 apply list_elem_of_further. apply list_elem_of_here.
  - lia.
Defined.

(** C8 as stated fails: a rank-2 column whose second dimension is 1 is within
    [maxshape=(None, 2)]; it is created and filtered like the others. *)
Lemma narrow_column_is_copied :
  apply_cuts_h5py_chunked 3 events3_pair (EntryList [x_gt_1]) 2 =
  {| outfile := Some [ ("x", Rank1 [2; 3]%Z); ("y", Rank1 [15; 25]%Z);
                       ("cog", Rank2 1 [[8]; [9]]%Z) ];
     raised := None |}.
Proof. reflexivity. Qed.

(** ** The chunked copy: the schema of the output *)

Lemma schema_app g1 g2 : schema (g1 ++ g2) = schema g1 ++ schema g2.
Proof. unfold schema. by rewrite map_app. Qed.

Lemma create_dataset_Ok group name d group' :
  create_dataset group name d = Ok group' → group' = group ++ [(name, d)].
Proof.
  unfold create_dataset. destruct (getitem name group); [done|].
  destruct d; try by intros [= <-]. case_decide; [by intros [= <-]|done].
Qed.

Lemma first_chunk_schema start end_ mask items group group' :
  for_columns (first_chunk_column start end_ mask) items group = (group', None) →
  schema group' = schema group ++ schema (filter (fun item => supported (snd item)) items).
Proof.
  revert group. induction items as [|[name d] items IH]; intros group; cbn [for_columns].
  - intros [= <-]. by rewrite app_nil_r.
  - destruct (first_chunk_column start end_ mask (name, d) group) as [g1 [e|]] eqn:Hcol;
      [done|].
    intros Hrest. rewrite (IH _ Hrest). cbn [first_chunk_column] in Hcol.
    destruct d as [data|width data| |k n]; cbn [bind] in Hcol.
    + destruct (boolean_index _ _) as [selected|e]; cbn [bind] in Hcol; [|done].
      destruct (create_dataset _ _ _) as [g|e] eqn:Hcreate; [|done].
      apply create_dataset_Ok in Hcreate. simplify_eq.
      rewrite filter_cons_True by done. rewrite schema_app, <-app_assoc. done.
    + destruct (boolean_index _ _) as [selected|e]; cbn [bind] in Hcol; [|done].
      destruct (create_dataset _ _ _) as [g|e] eqn:Hcreate; [|done].
      apply create_dataset_Ok in Hcreate. simplify_eq.
      rewrite filter_cons_True by done. rewrite schema_app, <-app_assoc. done.
    + simplify_eq. by rewrite filter_cons_False by (by intros []).
    + simplify_eq. by rewrite filter_cons_False by (by intros []).
Qed.

Lemma getitem_setitem {A} name (v old : A) g :
  getitem name g = Some old → getitem name (setitem name v g) = Some v.
Proof.
  induction g as [|[k w] g IH]; simpl; [done|].
  case_decide as Hk; simpl; rewrite ?decide_True, ?decide_False by done; [done|apply IH].
Qed.

Lemma schema_setitem name v old g :
  getitem name g = Some old → layout_of v = layout_of old →
  schema (setitem name v g) = schema g.
Proof.
  intros Hget Hlayout. induction g as [|[k w] g IH]; simpl in *; [done|].
  case_decide as Hk; simpl.
  - simplify_eq. by rewrite Hlayout.
  - f_equal. by apply IH.
Qed.

Lemma layout_of_resize d n_new : layout_of (resize d n_new) = layout_of d.
Proof. by destruct d. Qed.

Lemma assign_tail_layout name d n_old values d' :
  assign_tail name d n_old values = Ok d' → layout_of d' = layout_of d.
Proof.
  destruct d, values; simpl; try done; [by intros [= <-]|].
  case_decide; [by intros [= <-]|done].
Qed.

Lemma later_chunk_column_schema start end_ mask item group group' :
  later_chunk_column start end_ mask item group = (group', None) →
  schema group' = schema group.
Proof.
  destruct item as [name d]. cbn [later_chunk_column].
  destruct (getitem name group) as [out|] eqn:Hget; [|done].
  pose proof (schema_setitem name (resize out (count_nonzero mask)) out group Hget
                (layout_of_resize _ _)) as Hresized.
  pose proof (getitem_setitem name (resize out (count_nonzero mask)) out group Hget)
    as Hget'.
  destruct d as [data|width data| |k n].
  - destruct (boolean_index _ _) as [selected|e]; cbn [bind]; [|done].
    destruct (assign_tail _ _ _ _) as [out'|e] eqn:Hassign; [|done].
    intros [= <-]. apply assign_tail_layout in Hassign.
    rewrite (schema_setitem name out' _ _ Hget') by (by rewrite Hassign). done.
  - destruct (boolean_index _ _) as [selected|e]; cbn [bind]; [|done].
    destruct (assign_tail _ _ _ _) as [out'|e] eqn:Hassign; [|done].
    intros [= <-]. apply assign_tail_layout in Hassign.
    rewrite (schema_setitem name out' _ _ Hget') by (by rewrite Hassign). done.
  - by intros [= <-].
  - by intros [= <-].
Qed.

Lemma later_chunk_schema start end_ mask items group group' :
  for_columns (later_chunk_column start end_ mask) items group = (group', None) →
  schema group' = schema group.
Proof.
  revert group. induction items as [|item items IH]; intros group; cbn [for_columns].
  - by intros [= <-].
  - destruct (later_chunk_column start end_ mask item group) as [g1 [e|]] eqn:Hcol; [done|].
    intros Hrest. rewrite (IH _ Hrest). by eapply later_chunk_column_schema.
Qed.

Lemma later_chunks_schema infile sc n_events chunksize chunks group group' :
  Forall (fun chunk => chunk ≠ 0) chunks →
  for_chunks infile sc n_events chunksize chunks group = (group', None) →
  schema group' = schema group.
Proof.
  intros Hchunks. revert group.
  induction Hchunks as [|chunk chunks Hchunk _ IH]; intros group; cbn [for_chunks].
  - by intros [= <-].
  - destruct (copy_chunk infile sc n_events chunksize chunk group) as [g1 [e|]] eqn:Hcopy;
      [done|].
    intros Hrest. rewrite (IH _ Hrest). unfold copy_chunk in Hcopy.
    destruct (create_mask_h5py _ _ _ _ _) as [mask|e]; [|done].
    destruct chunk as [|chunk']; [done|]. by eapply later_chunk_schema.
Qed.

Lemma Forall_seq_nonzero a b : 0 < a → Forall (fun chunk => chunk ≠ 0) (seq a b).
Proof. intros Ha. apply Forall_forall. intros x Hx%elem_of_seq. lia. Qed.

(** C4, as the code has it: when the copy of a table with at least one row
    returns, the output holds the columns of rank 1 and 2 of the input, in
    the same order and with the same rank and second dimension; the columns
    of any other rank are left out.  Only the number of rows differs. *)
Theorem schema_of_completed_copy n_events infile sc chunksize group :
  0 < n_events → 0 < chunksize →
  completed (apply_cuts_h5py_chunked n_events infile sc chunksize) = Some group →
  schema group = schema (filter (fun item => supported (snd item)) infile).
Proof.
  intros Hn Hc. unfold apply_cuts_h5py_chunked.
  destruct chunksize as [|c]; [lia|].
  destruct (for_chunks_first n_events infile sc (S c) Hn Hc) as (k & -> & ->).
  destruct (create_mask_h5py _ _ _ _ _) as [mask|e]; [|done].
  destruct (for_columns _ _ _) as [g0 [e|]] eqn:Hfirst; [done|].
  destruct (for_chunks _ _ _ _ _ _) as [g1 [e|]] eqn:Hlater; [done|].
  unfold completed. simpl. intros [= <-].
  rewrite (later_chunks_schema _ _ _ _ _ _ _ (Forall_seq_nonzero 1 k ltac:(lia)) Hlater).
  by rewrite (first_chunk_schema _ _ _ _ _ _ Hfirst).
Qed.

Lemma schema_of_completed_copy_witness :
  schema [("x", Rank1 [2; 3]%Z); ("y", Rank1 [15; 25]%Z)] =
  schema (filter (fun item => supported (snd item)) events3_cube).
Proof.
  apply (schema_of_completed_copy 3 events3_cube (EntryList [x_gt_1]) 3).
  - lia.
  - lia.
  - reflexivity.
Defined.

(** C4 as stated fails: the column of rank 3 is in the input and not in the
    output of a copy that returned. *)
Lemma schema_not_preserved :
  completed (apply_cuts_h5py_chunked 3 events3_cube (EntryList [x_gt_1]) 3) =
    Some [("x", Rank1 [2; 3]%Z); ("y", Rank1 [15; 25]%Z)] ∧
  schema [("x", Rank1 [2; 3]%Z); ("y", Rank1 [15; 25]%Z)] ≠ schema events3_cube.
Proof. split; [reflexivity|discriminate]. Qed.

(** A table without rows has no chunk: the output group stays without
    columns. *)
Example no_rows_no_columns :
  apply_cuts_h5py_chunked 0 events0 (EntryList [x_gt_1]) 2 =
  {| outfile := Some []; raised := None |}.
Proof. reflexivity. Qed.

(** ** Columns of unsupported rank and the later chunks *)

(** The columns that the copy writes are those for which the tests
    [dataset.ndim == 1] and [dataset.ndim == 2] of the source succeed. *)
Lemma supported_ndim d : supported d ↔ ndim d = 1 ∨ ndim d = 2.
Proof. destruct d; simpl; split; (tauto || lia || by intros [|]). Qed.

(** With two chunks, the column of rank 3 that the first chunk skipped is
    looked up in the output group by the second chunk (line 207) before its
    rank is tested, and the copy raises KeyError after the other columns of
    that chunk have been written. *)
Example skipped_column_raises_in_second_chunk :
  apply_cuts_h5py_chunked 3 events3_cube (EntryList [x_gt_1]) 2 =
  {| outfile := Some [("x", Rank1 [2; 3]%Z); ("y", Rank1 [15; 25]%Z)];
     raised := Some (KeyError "cube") |}.
Proof. reflexivity. Qed.

(** With a single chunk the same column is skipped and the copy returns. *)
Example skipped_column_single_chunk :
  apply_cuts_h5py_chunked 3 events3_cube (EntryList [x_gt_1]) 3 =
  {| outfile := Some [("x", Rank1 [2; 3]%Z); ("y", Rank1 [15; 25]%Z)];
     raised := None |}.
Proof. reflexivity. Qed.

(** C1 fails on the code: on the table with a column of rank 3, the copy
    returns the filtered table with chunks of 3 rows; with chunks of 1 row it
    raises in the second chunk and leaves the rows of the first two chunks. *)
Theorem chunksize_changes_outcome :
  apply_cuts_h5py_chunked 3 events3_cube (EntryList [x_gt_1]) 3 =
    {| outfile := Some [("x", Rank1 [2; 3]%Z); ("y", Rank1 [15; 25]%Z)];
       raised := None |} ∧
  apply_cuts_h5py_chunked 3 events3_cube (EntryList [x_gt_1]) 1 =
    {| outfile := Some [("x", Rank1 [2]%Z); ("y", Rank1 [15]%Z)];
       raised := Some (KeyError "cube") |}.
Proof. split; reflexivity. Qed.

(** ** The cascade: which tables are filtered by key *)

Lemma getitem_zip_None {A} name (names : list string) (r : list A) :
  name ∉ names → getitem name (zip names r) = None.
Proof.
  revert r. induction names as [|k names IH]; intros r Hname; [done|].
  destruct r as [|c r]; [done|]. simpl.
  apply not_elem_of_cons in Hname as [Hne Hname].
  rewrite decide_False by done. by apply IH.
Qed.

Lemma event_of_without_obs_id t r :
  "obs_id" ∉ colnames t → event_of t r = Raise (KeyError "obs_id").
Proof.
  intros Hcol. unfold event_of, row_getitem. by rewrite getitem_zip_None.
Qed.

Lemma copy_rows_without_event_id t showers rs kept :
  "event_id" ∉ colnames t → copy_rows t showers rs kept = (kept ++ rs, None).
Proof.
  intros Hcol. revert kept. induction rs as [|r rs IH]; intros kept; simpl.
  - by rewrite app_nil_r.
  - rewrite decide_False by done. rewrite IH. by rewrite <-app_assoc.
Qed.

Lemma for_walk_nodes_stops showers nodes n out :
  n ∈ nodes →
  (∀ out, ∃ out' e, copy_other showers n out = (out', Some e)) →
  ∃ out' e, for_walk_nodes showers nodes out = (out', Some e).
Proof.
  intros Hin Hstop. revert out.
  induction nodes as [|m nodes IH]; intros out; [by apply elem_of_nil in Hin|].
  cbn [for_walk_nodes]. apply elem_of_cons in Hin as [<-|Hin].
  - destruct (Hstop out) as (out' & e & ->). by eauto.
  - destruct (copy_other showers m out) as [out' [e|]]; [by eauto|]. by apply IH.
Qed.

(** C9, as the code has it: the rows of a table outside the parameters group
    are filtered by key exactly when the table has a column [event_id].
    Without it all rows are copied, whatever the other columns.  With it,
    [row['obs_id']] is read for every row, so a table that has a row, has
    [event_id] and lacks [obs_id] stops the copy of its rows with KeyError at
    the first row, and every call on a file with such a table raises. *)
Theorem event_id_decides_filtering t showers :
  rows t ≠ [] →
  ("event_id" ∉ colnames t → copy_rows t showers (rows t) [] = (rows t, None)) ∧
  ("event_id" ∈ colnames t → "obs_id" ∉ colnames t →
     copy_rows t showers (rows t) [] = ([], Some (KeyError "obs_id")) ∧
     ∀ in_ out0 sc,
       Table t ∈ in_ → v_parent t ≠ PARAMETERS →
       ∃ e, returned (apply_cuts_cta_dl1 in_ out0 sc) = Raise e).
Proof.
  intros Hrows. split.
  - intros Hevent. by rewrite copy_rows_without_event_id.
  - intros Hevent Hobs.
    assert (∀ showers, copy_rows t showers (rows t) [] = ([], Some (KeyError "obs_id")))
      as Hcopy.
    { intros S. destruct (rows t) as [|r rs]; [done|]. cbn [copy_rows].
      rewrite decide_True by done. by rewrite event_of_without_obs_id. }
    split; [done|]. intros in_ out0 sc Hin Hparent. unfold apply_cuts_cta_dl1.
    destruct (parameter_phase in_ out0 sc) as [st [e|]]; [by eauto|].
    destruct (for_walk_nodes_stops (showers1 st) in_ (Table t) (out1 st) Hin)
      as (out' & e & ->); [|by eauto].
    intros out. cbn [copy_other]. rewrite decide_False by done.
    destruct (create_table out (v_parent t) (v_name t)); [|by eauto].
    rewrite Hcopy. by eauto.
Qed.

Lemma event_id_decides_filtering_witness :
  copy_rows trigger1 ∅ (rows trigger1) [] = ([], Some (KeyError "obs_id")) ∧
  ∃ e, returned (apply_cuts_cta_dl1 trigger1_file [] (EntryList [x_gt_1])) = Raise e.
Proof.
  destruct (event_id_decides_filtering trigger1 ∅) as [_ Hraise]; [done|].
  destruct Hraise as [Hcopy Hcall].
  - apply list_elem_of_here.
  - intros Hin. repeat (apply elem_of_cons in Hin as [Hin|Hin]; [done|]).
    by apply elem_of_nil in Hin.
  - split; [exact Hcopy|]. apply Hcall; [|done].
    apply list_elem_of_further, list_elem_of_here.
Defined.

Example row_without_obs_id_stops_the_call :
  apply_cuts_cta_dl1 trigger1_file [] (EntryList [x_gt_1]) =
  {| out_ := [ new_table PARAMETERS "tel_001" (description tel_001)
                 [ [Scalar 1; Scalar 1; Scalar 5]; [Scalar 2; Scalar 1; Scalar 7] ]%Z;
               new_table "/dl1/event/subarray" "trigger" (description trigger1) [] ];
     returned := Raise (KeyError "obs_id") |}.
Proof. reflexivity. Qed.

(** C9 as stated fails: a table with [event_id], without [obs_id] and without
    rows is created in the output and the call returns. *)
Lemma empty_table_without_obs_id_is_copied :
  apply_cuts_cta_dl1 trigger_file [] (EntryList [x_gt_1]) =
  {| out_ := [ new_table PARAMETERS "tel_001" (description tel_001)
                 [ [Scalar 1; Scalar 1; Scalar 5]; [Scalar 2; Scalar 1; Scalar 7] ]%Z;
               trigger ];
     returned := Ok (3, 2) |}.
Proof. reflexivity. Qed.

(** ** The chunked copy on well-formed tables: the mask of a chunk *)

Lemma getitem_Some_elem {A} name (g : list (string * A)) v :
  getitem name g = Some v → (name, v) ∈ g.
Proof.
  induction g as [|[k w] g IH]; simpl; [done|].
  case_decide as Hk.
  - intros [= ->]. subst. apply list_elem_of_here.
  - intros H. apply list_elem_of_further. by apply IH.
Qed.

Lemma slice_all {A} (a : list A) n : length a = n → slice 0 n a = a.
Proof. intros <-. unfold slice. by rewrite drop_0, Nat.sub_0_r, firstn_all. Qed.

Lemma slice_zip_with {A B C} (f : A -> B -> C) start end_ a b :
  slice start end_ (zip_with f a b) = zip_with f (slice start end_ a) (slice start end_ b).
Proof. unfold slice. by rewrite zip_with_drop, zip_with_take. Qed.

Lemma cut_h5py_chunk n_events infile start end_ c mask :
  well_formed n_events infile → end_ <= n_events → length mask = n_events →
  cut_h5py infile start end_ c (slice start end_ mask) =
    on_success (slice start end_) (cut_h5py infile 0 n_events c mask) ∧
  ∀ mask', cut_h5py infile 0 n_events c mask = Ok mask' → length mask' = n_events.
Proof.
  intros Hwf Hend Hlen.
  destruct c as [|[name [operator value]] [|]]; [done| |done]. cbn [cut_h5py].
  destruct (OPERATORS !! operator) as [f|]; [|done].
  destruct (getitem name infile) as [d|] eqn:Hget; [|done].
  apply getitem_Some_elem in Hget. unfold well_formed in Hwf. rewrite Forall_forall in Hwf.
  destruct (Hwf _ Hget) as [Hsup Hrows]. cbn [snd] in *.
  destruct d as [data|width data| |k n]; try done. cbn [compare_column bind n_rows] in *.
  rewrite slice_all by done.
  rewrite !logical_and_same_length
    by (rewrite ?length_map, ?length_slice by lia; lia).
  cbn [on_success]. split.
  - by rewrite slice_zip_with, !map_fmap, slice_fmap.
  - intros mask' [= <-]. rewrite length_zip_with, length_map. lia.
Qed.

Lemma cuts_h5py_chunk n_events infile start end_ cs mask :
  well_formed n_events infile → end_ <= n_events → length mask = n_events →
  cuts_h5py infile start end_ cs (slice start end_ mask) =
    on_success (slice start end_) (cuts_h5py infile 0 n_events cs mask) ∧
  ∀ mask', cuts_h5py infile 0 n_events cs mask = Ok mask' → length mask' = n_events.
Proof.
  intros Hwf Hend. revert mask. induction cs as [|c cs IH]; intros mask Hlen.
  - cbn. split; [done|]. by intros mask' [= <-].
  - cbn [cuts_h5py].
    destruct (cut_h5py_chunk n_events infile start end_ c mask Hwf Hend Hlen) as [-> Hlen'].
    destruct (cut_h5py infile 0 n_events c mask) as [mask1|e]; cbn [on_success bind]; [|done].
    by apply IH, Hlen'.
Qed.

Lemma create_mask_h5py_chunk n_events infile sc start end_ :
  well_formed n_events infile → start < end_ → end_ <= n_events →
  create_mask_h5py infile sc n_events (Some start) (Some end_) =
    on_success (slice start end_) (create_mask_h5py infile sc n_events None None) ∧
  ∀ mask, create_mask_h5py infile sc n_events None None = Ok mask → length mask = n_events.
Proof.
  intros Hwf Hlt Hle. unfold create_mask_h5py.
  rewrite start_or_0_Some, end_or_n_events_Some by lia. cbn [start_or_0 end_or_n_events].
  unfold ones. rewrite !decide_False by lia. cbn [bind].
  replace (replicate (end_ - start) true) with (slice start end_ (replicate (n_events - 0) true)).
  - apply cuts_h5py_chunk; [done..|]. rewrite length_replicate. lia.
  - unfold slice. rewrite drop_replicate, take_replicate. f_equal. lia.
Qed.

(** ** The chunked copy on well-formed tables: the columns *)

Lemma compress_nil_r {A} (mask : list bool) : compress mask (@nil A) = [].
Proof. by destruct mask. Qed.

Lemma compress_take_mask {A} (mask : list bool) (a : list A) :
  compress mask (take (length mask) a) = compress mask a.
Proof.
  revert a. induction mask as [|m mask IH]; intros [|x a]; simpl; [done..|].
  rewrite IH. done.
Qed.

Lemma compress_app {A} (m1 m2 : list bool) (a : list A) :
  compress (m1 ++ m2) a = compress m1 a ++ compress m2 (drop (length m1) a).
Proof.
  revert a. induction m1 as [|m m1 IH]; intros a; [done|].
  destruct a as [|x a]; simpl.
  - by rewrite compress_nil_r.
  - rewrite IH. by destruct m.
Qed.

Lemma compress_split {A} (mask : list bool) (a : list A) start end_ :
  start <= end_ → end_ <= length mask →
  compress (take start mask) a ++ compress (slice start end_ mask) (slice start end_ a) =
  compress (take end_ mask) a.
Proof.
  intros Hse Hend.
  replace (take end_ mask) with (take start mask ++ slice start end_ mask).
  - rewrite compress_app, length_take_le by lia. f_equal.
    rewrite <-(compress_take_mask (slice start end_ mask) (drop start a)).
    by rewrite length_slice by lia.
  - unfold slice. rewrite take_take_drop. f_equal. lia.
Qed.

Lemma fst_filtered mask g : map fst (filtered mask g) = map fst g.
Proof. unfold filtered. rewrite map_map. done. Qed.

Lemma filtered_app mask g1 g2 : filtered mask (g1 ++ g2) = filtered mask g1 ++ filtered mask g2.
Proof. unfold filtered. by rewrite map_app. Qed.

Lemma getitem_None {A} name (g : list (string * A)) :
  getitem name g = None ↔ name ∉ map fst g.
Proof.
  induction g as [|[k v] g IH]; simpl.
  - split; [intros _; apply not_elem_of_nil|done].
  - rewrite not_elem_of_cons, <-IH. case_decide as Hk; subst; split.
    + done.
    + by intros [? _].
    + intros Hnone. split; [congruence|done].
    + by intros [_ ?].
Qed.

Lemma getitem_app_r {A} name (g1 g2 : list (string * A)) :
  name ∉ map fst g1 → getitem name (g1 ++ g2) = getitem name g2.
Proof.
  induction g1 as [|[k v] g1 IH]; simpl; [done|].
  intros [Hne Hnot]%not_elem_of_cons. rewrite decide_False by done. by apply IH.
Qed.

Lemma setitem_app_r {A} name (v : A) (g1 g2 : list (string * A)) :
  name ∉ map fst g1 → setitem name v (g1 ++ g2) = g1 ++ setitem name v g2.
Proof.
  induction g1 as [|[k w] g1 IH]; simpl; [done|].
  intros [Hne Hnot]%not_elem_of_cons. rewrite decide_False by done. by rewrite IH.
Qed.

Lemma select_take_mask mask d :
  supported d → length mask <= n_rows d →
  select mask d =
  match d with
  | Rank1 data => Rank1 (compress mask (slice 0 (length mask) data))
  | Rank2 width data => Rank2 width (compress mask (slice 0 (length mask) data))
  | other => other
  end.
Proof.
  intros Hsup Hlen. unfold slice. rewrite Nat.sub_0_r.
  destruct d; simpl; rewrite ?drop_0, ?compress_take_mask; done.
Qed.

Lemma first_chunk_creates n_events end_ mask items group :
  Forall (fun item => supported (snd item) ∧ n_rows (snd item) = n_events) items →
  end_ <= n_events → length mask = end_ →
  NoDup (map fst group ++ map fst items) →
  Forall (fun item => narrow (snd item)) items →
  for_columns (first_chunk_column 0 end_ mask) items group =
  (group ++ filtered mask items, None).
Proof.
  intros Hwf Hend Hlen. revert group.
  induction Hwf as [|[name d] items [Hsup Hrows] _ IH]; intros group Hdup Hnarrow.
  - cbn. by rewrite app_nil_r.
  - apply Forall_cons in Hnarrow as [Hd Hnarrow]. cbn [fst snd map] in *.
    assert (getitem name group = None) as Hfresh.
    { apply getitem_None. apply NoDup_app in Hdup as (_ & Hdisj & Hitems).
      intros Hin. apply (Hdisj _ Hin). apply list_elem_of_here. }
    assert (for_columns (first_chunk_column 0 end_ mask) items
              (group ++ [(name, select mask d)]) =
            ((group ++ [(name, select mask d)]) ++ filtered mask items, None)) as Hrest.
    { apply IH; [|done]. rewrite map_app. cbn [map fst]. by rewrite <-app_assoc. }
    cbn [for_columns first_chunk_column].
    assert (length mask <= n_rows d) as Hfit by lia.
    rewrite (select_take_mask mask d Hsup Hfit) in Hrest. rewrite Hlen in Hrest.
    destruct d as [data|width data| |k n]; try done; cbn [n_rows narrow] in *;
      unfold boolean_index; rewrite decide_True by (rewrite length_slice; lia);
      cbn [bind]; unfold create_dataset; rewrite Hfresh.
    + rewrite Hrest, <-app_assoc. cbn [filtered map fst snd app select].
      do 3 f_equal. by rewrite <-Hlen, <-(select_take_mask mask (Rank1 data)) by (done || lia).
    + rewrite decide_True by (by apply bool_decide_unpack in Hd).
      rewrite Hrest, <-app_assoc. cbn [filtered map fst snd app select].
      do 3 f_equal.
      by rewrite <-Hlen, <-(select_take_mask mask (Rank2 width data)) by (done || lia).
Qed.

Lemma first_chunk_refuses n_events end_ mask items group :
  Forall (fun item => supported (snd item) ∧ n_rows (snd item) = n_events) items →
  end_ <= n_events → length mask = end_ →
  NoDup (map fst group) →
  ¬ (NoDup (map fst group ++ map fst items) ∧ Forall (fun item => narrow (snd item)) items) →
  ∃ group' e, for_columns (first_chunk_column 0 end_ mask) items group = (group', Some e).
Proof.
  intros Hwf Hend Hlen. revert group.
  induction Hwf as [|[name d] items [Hsup Hrows] _ IH]; intros group Hgroup Hbad.
  - destruct Hbad. cbn. rewrite app_nil_r. split; [done|apply Forall_nil_2].
  - cbn [fst snd map for_columns] in *.
    destruct (first_chunk_column 0 end_ mask (name, d) group) as [group' [e|]] eqn:Hcol;
      [by eauto|].
    apply IH.
    + cbn [first_chunk_column] in Hcol.
      destruct d as [data|width data| |k n]; try done;
        (destruct (boolean_index _ _) as [selected|e]; cbn [bind] in Hcol; [|done]);
        (destruct (create_dataset _ _ _) as [g|e] eqn:Hcreate; [|done]);
        pose proof Hcreate as Hnew; apply create_dataset_Ok in Hnew;
        unfold create_dataset in Hcreate;
        (destruct (getitem name group) eqn:Hget; [done|]); apply getitem_None in Hget;
        simplify_eq; rewrite map_app; cbn [map fst];
        apply NoDup_app; (split; [done|]); (split; [|apply NoDup_singleton]);
        intros x Hx ->%list_elem_of_singleton; done.
    + intros [Hdup Hnarrow]. apply Hbad.
      cbn [first_chunk_column] in Hcol.
      destruct d as [data|width data| |k n]; try done;
        (destruct (boolean_index _ _) as [selected|e]; cbn [bind] in Hcol; [|done]);
        (destruct (create_dataset _ _ _) as [g|e] eqn:Hcreate; [|done]);
        pose proof Hcreate as Hnew; apply create_dataset_Ok in Hnew;
        unfold create_dataset in Hcreate;
        (destruct (getitem name group) eqn:Hget; [done|]);
        simplify_eq; rewrite map_app in Hdup; cbn [map fst] in Hdup;
        rewrite <-app_assoc in Hdup; (split; [done|]);
        apply Forall_cons; (split; [|done]); cbn [snd narrow]; [done|].
      case_decide; [by apply bool_decide_pack|done].
Qed.

Lemma later_chunk_appends n_events start end_ mask todo done_ :
  NoDup (map fst (done_ ++ todo)) →
  Forall (fun item => supported (snd item) ∧ n_rows (snd item) = n_events) todo →
  start <= end_ → end_ <= n_events → length mask = n_events →
  for_columns (later_chunk_column start end_ (slice start end_ mask)) todo
    (filtered (take end_ mask) done_ ++ filtered (take start mask) todo) =
  (filtered (take end_ mask) (done_ ++ todo), None).
Proof.
  intros Hdup Hwf Hse Hend Hlen. revert done_ Hdup.
  induction Hwf as [|[name d] todo [Hsup Hrows] _ IH]; intros done_ Hdup.
  - cbn. by rewrite !app_nil_r.
  - assert (name ∉ map fst (filtered (take end_ mask) done_)) as Hfresh.
    { rewrite fst_filtered. rewrite map_app in Hdup.
      apply NoDup_app in Hdup as (_ & Hdisj & _).
      intros Hin. apply (Hdisj _ Hin). apply list_elem_of_here. }
    specialize (IH (done_ ++ [(name, d)])).
    rewrite <-app_assoc in IH. specialize (IH Hdup).
    rewrite filtered_app, <-app_assoc in IH. cbn [filtered map fst snd app] in IH.
    cbn [for_columns later_chunk_column filtered map fst snd].
    rewrite getitem_app_r by done. cbn [getitem]. rewrite decide_True by done.
    rewrite setitem_app_r by done. cbn [setitem]. rewrite decide_True by done.
    cbn [snd n_rows] in Hrows.
    destruct d as [data|width data| |k n]; try done; cbn [select resize n_rows] in *;
      unfold boolean_index; rewrite decide_True by (rewrite !length_slice; lia);
      cbn [bind assign_tail]; rewrite ?decide_True by done;
      rewrite setitem_app_r by done; cbn [setitem]; rewrite decide_True by done;
      rewrite take_app_length, compress_split by lia; exact IH.
Qed.

(** ** The chunked copy on well-formed tables: the chunks *)

Lemma chunk_start_lt n_events chunksize k :
  0 < chunksize → k < n_chunks n_events chunksize → k * chunksize < n_events.
Proof.
  intros Hc. unfold n_chunks. intros Hk.
  pose proof (Nat.Div0.mul_div_le (n_events + chunksize - 1) chunksize). nia.
Qed.

Lemma chunks_cover n_events chunksize :
  0 < chunksize → n_events <= n_chunks n_events chunksize * chunksize.
Proof.
  intros Hc. unfold n_chunks.
  pose proof (Nat.mul_succ_div_gt (n_events + chunksize - 1) chunksize ltac:(lia)). nia.
Qed.

Lemma later_chunks_append n_events infile sc chunksize mask b a :
  well_formed n_events infile → NoDup (map fst infile) → 0 < chunksize →
  create_mask_h5py infile sc n_events None None = Ok mask →
  0 < a → a + b <= n_chunks n_events chunksize →
  for_chunks infile sc n_events chunksize (seq a b)
    (filtered (take (min n_events (a * chunksize)) mask) infile) =
  (filtered (take (min n_events ((a + b) * chunksize)) mask) infile, None).
Proof.
  intros Hwf Hdup Hc Hmask. revert a. induction b as [|b IH]; intros a Ha Hab.
  - cbn. by rewrite Nat.add_0_r.
  - cbn [seq for_chunks]. unfold copy_chunk.
    assert (a * chunksize < n_events) as Hstart by (apply chunk_start_lt; lia).
    destruct (create_mask_h5py_chunk n_events infile sc (a * chunksize)
                (min n_events ((a + 1) * chunksize)) Hwf) as [-> Hlen]; [nia|lia|].
    rewrite Hmask. cbn [on_success]. specialize (Hlen _ Hmask).
    destruct a as [|a']; [lia|].
    replace (min n_events (S a' * chunksize)) with (S a' * chunksize) by lia.
    pose proof (later_chunk_appends n_events (S a' * chunksize)
                  (min n_events ((S a' + 1) * chunksize)) mask infile [] Hdup Hwf) as Hcols.
    cbn [filtered map app] in Hcols. rewrite Hcols by (done || nia).
    replace (S a' + 1) with (S (S a')) by lia. rewrite IH by lia.
    do 4 f_equal. lia.
Qed.

(** The output of the copy of a well-formed table with rows: the table
    reduced to the rows at which the mask of the whole table holds, when the
    selection evaluates and the columns can be created. *)
Lemma completed_copy n_events infile sc chunksize :
  well_formed n_events infile → 0 < n_events → 0 < chunksize →
  completed (apply_cuts_h5py_chunked n_events infile sc chunksize) =
  match create_mask_h5py infile sc n_events None None with
  | Ok mask => if decide (creatable infile) then Some (filtered mask infile) else None
  | Raise _ => None
  end.
Proof.
  intros Hwf Hn Hc. unfold apply_cuts_h5py_chunked.
  destruct chunksize as [|c]; [lia|].
  destruct (for_chunks_first n_events infile sc (S c) Hn Hc) as (k & Hk & Hfirst).
  rewrite Hk, Hfirst. clear Hfirst.
  destruct (create_mask_h5py_chunk n_events infile sc 0 (min n_events (S c)) Hwf)
    as [-> Hlen]; [lia..|].
  destruct (create_mask_h5py infile sc n_events None None) as [mask|e] eqn:Hmask;
    cbn [on_success]; [|done].
  specialize (Hlen _ eq_refl).
  assert (slice 0 (min n_events (S c)) mask = take (min n_events (1 * S c)) mask) as ->.
  { unfold slice. rewrite drop_0. f_equal. lia. }
  destruct (decide (creatable infile)) as [[Hdup Hnarrow]|Hbad].
  - rewrite (first_chunk_creates n_events (min n_events (S c))); [|done|lia| |done|done].
    + cbn [app].
      rewrite (later_chunks_append n_events infile sc (S c) mask k 1) by (done || lia).
      unfold completed. cbn [raised outfile]. rewrite take_ge; [done|].
      pose proof (chunks_cover n_events (S c) Hc). rewrite Hk in *. lia.
    + rewrite length_take. lia.
  - destruct (first_chunk_refuses n_events (min n_events (S c))
                (take (min n_events (1 * S c)) mask) infile []) as (g & e & ->);
      [done|lia|rewrite length_take; lia|apply NoDup_nil_2|done|done].
Qed.

(** X2: chunksize invariance on well-formed tables: two chunk sizes give the
    same output, or both calls raise. *)
Lemma chunksize_invariance n_events infile sc c1 c2 :
  well_formed n_events infile → 0 < c1 → 0 < c2 →
  completed (apply_cuts_h5py_chunked n_events infile sc c1) =
  completed (apply_cuts_h5py_chunked n_events infile sc c2).
Proof.
  intros Hwf Hc1 Hc2. destruct n_events as [|n].
  - unfold apply_cuts_h5py_chunked, n_chunks.
    destruct c1 as [|c1]; [lia|]. destruct c2 as [|c2]; [lia|].
    by rewrite !Nat.div_small by lia.
  - by rewrite !completed_copy by (done || lia).
Qed.

(** ** Columns of unsupported rank: every run with a second chunk raises *)

Lemma fst_schema g : map fst (schema g) = map fst g.
Proof. unfold schema. by rewrite map_map. Qed.

Lemma elem_of_fst_filter {A} (P : string * A → Prop) `{∀ x, Decision (P x)} name
    (l : list (string * A)) :
  name ∈ map fst (filter P l) → name ∈ map fst l.
Proof.
  rewrite !map_fmap, !list_elem_of_fmap.
  intros (item & -> & [_ Hin]%list_elem_of_filter). by exists item.
Qed.

Lemma skipped_is_not_created (items : list (string * dataset)) name d :
  NoDup (map fst items) → (name, d) ∈ items → ¬ supported d →
  name ∉ map fst (filter (fun item => supported (snd item)) items).
Proof.
  induction items as [|[k v] items IH]; intros Hdup Hin Hd; [by apply elem_of_nil in Hin|].
  cbn [map fst] in Hdup. apply NoDup_cons in Hdup as [Hk Hdup].
  apply elem_of_cons in Hin as [[= -> ->]|Hin].
  - rewrite filter_cons_False by done. intros Hname%elem_of_fst_filter. done.
  - assert (name ≠ k) as Hne.
    { intros ->. apply Hk. rewrite map_fmap. apply list_elem_of_fmap. by exists (k, d). }
    destruct (decide (supported v)) as [Hv|Hv].
    + rewrite filter_cons_True by done. cbn [map fst].
      apply not_elem_of_cons. split; [done|by apply IH].
    + rewrite filter_cons_False by done. by apply IH.
Qed.

Lemma later_chunk_missing_column start end_ mask items group name d :
  (name, d) ∈ items → name ∉ map fst group →
  ∃ group' e,
    for_columns (later_chunk_column start end_ mask) items group = (group', Some e).
Proof.
  intros Hin. revert group.
  induction items as [|item items IH]; intros group Hname; [by apply elem_of_nil in Hin|].
  cbn [for_columns]. apply elem_of_cons in Hin as [<-|Hin].
  - cbn [later_chunk_column]. apply getitem_None in Hname. rewrite Hname. by eauto.
  - destruct (later_chunk_column start end_ mask item group) as [group' [e|]] eqn:Hcol;
      [by eauto|].
    apply IH; [done|]. apply later_chunk_column_schema in Hcol.
    by rewrite <-fst_schema, Hcol, fst_schema.
Qed.

(** C5 fails on the code, in general: on a table whose columns have distinct
    names, a column of a rank other than 1 and 2 makes every copy with more
    than one chunk raise. *)
Theorem unsupported_rank_raises_with_two_chunks n_events infile sc chunksize name d :
  NoDup (map fst infile) → (name, d) ∈ infile → ¬ supported d →
  0 < chunksize → chunksize < n_events →
  ∃ e, raised (apply_cuts_h5py_chunked n_events infile sc chunksize) = Some e.
Proof.
  intros Hdup Hin Hd Hc Hn. unfold apply_cuts_h5py_chunked.
  destruct chunksize as [|c]; [lia|].
  destruct (for_chunks_first n_events infile sc (S c)) as (k & Hk & Hfirst0); [lia..|].
  rewrite Hk, Hfirst0. clear Hfirst0.
  destruct (create_mask_h5py _ _ _ _ _) as [mask0|e]; [|by eauto].
  destruct (for_columns _ _ _) as [g0 [e|]] eqn:Hfirst; [by eauto|].
  assert (2 <= n_chunks n_events (S c)) as Hchunks.
  { unfold n_chunks. apply Nat.div_le_lower_bound; lia. }
  destruct k as [|k]; [lia|]. cbn [seq for_chunks]. unfold copy_chunk.
  destruct (create_mask_h5py _ _ _ _ _) as [mask1|e]; [|by eauto].
  destruct (later_chunk_missing_column (1 * S c) (min n_events ((1 + 1) * S c)) mask1
              infile g0 name d Hin) as (g1 & e & ->); [|by eauto].
  apply first_chunk_schema in Hfirst. cbn [schema map app] in Hfirst.
  rewrite <-fst_schema, Hfirst, fst_schema. by apply (skipped_is_not_created infile name d).
Qed.

Lemma unsupported_rank_raises_with_two_chunks_witness :
  ∃ e, raised (apply_cuts_h5py_chunked 3 events3_cube (EntryList [x_gt_1]) 2) = Some e.
Proof.
  apply (unsupported_rank_raises_with_two_chunks 3 events3_cube _ 2 "cube" (RankHigh 0 3)).
  - apply (bool_decide_unpack _). vm_compute. exact I.
  - do 2 apply list_elem_of_further. apply list_elem_of_here.
  - intros [].
  - lia.
  - lia.
Defined.

(** * Further properties of the chunked copy *)

Lemma completed_Some r group :
  completed r = Some group → r = {| outfile := Some group; raised := None |}.
Proof. destruct r as [o [e|]]; unfold completed; simpl; [done|]. by intros ->. Qed.

Lemma whole_mask_spec infile sc n_events :
  Forall (evaluable infile n_events) (as_entries sc) →
  ∃ mask, create_mask_h5py infile sc n_events None None = Ok mask ∧
    length mask = n_events ∧
    ∀ i, i < n_events →
      (mask !! i = Some true ↔ Forall (holds_at infile i) (as_entries sc)).
Proof.
  intros Hsc. unfold create_mask_h5py. cbn [start_or_0 end_or_n_events].
  unfold ones. rewrite decide_False by lia. cbn [bind].
  destruct (cuts_h5py_spec infile n_events 0 n_events (as_entries sc)
              (replicate (n_events - 0) true) Hsc)
    as (mask & Hmask & Hlen & Hspec); [lia|by rewrite length_replicate|].
  exists mask. split; [done|]. split; [lia|].
  intros i Hi. rewrite Hspec, lookup_replicate_2 by lia. cbn. tauto.
Qed.

(** X1: on a table whose columns have rank 1 or 2 (second dimension at most
    2), distinct names and [n_events > 0] rows each, with a selection whose
    entries evaluate, the copy returns for every chunk size, and its output
    holds every column reduced to the rows at which all criteria hold, in
    their order. *)
Theorem copy_keeps_the_rows_that_pass n_events infile sc chunksize :
  well_formed n_events infile → creatable infile →
  0 < n_events → 0 < chunksize →
  Forall (evaluable infile n_events) (as_entries sc) →
  ∃ mask,
    length mask = n_events ∧
    (∀ i, i < n_events →
       (mask !! i = Some true ↔ Forall (holds_at infile i) (as_entries sc))) ∧
    apply_cuts_h5py_chunked n_events infile sc chunksize =
    {| outfile := Some (filtered mask infile); raised := None |}.
Proof.
  intros Hwf Hcreate Hn Hc Hsc.
  destruct (whole_mask_spec infile sc n_events Hsc) as (mask & Hmask & Hlen & Hspec).
  exists mask. split; [done|]. split; [done|].
  apply completed_Some. rewrite completed_copy by done.
  by rewrite Hmask, decide_True.
Qed.

Lemma copy_keeps_the_rows_that_pass_witness :
  ∃ mask,
    length mask = 3 ∧
    (∀ i, i < 3 →
       (mask !! i = Some true ↔ Forall (holds_at events3_pair i) [x_gt_1; x_lt_3])) ∧
    apply_cuts_h5py_chunked 3 events3_pair (EntryList [x_gt_1; x_lt_3]) 2 =
    {| outfile := Some (filtered mask events3_pair); raised := None |}.
Proof.
  apply (copy_keeps_the_rows_that_pass 3 events3_pair (EntryList [x_gt_1; x_lt_3]) 2).
  - repeat constructor.
  - apply (bool_decide_unpack _). vm_compute. exact I.
  - lia.
  - lia.
  - repeat constructor; by eexists.
Defined.

Lemma chunksize_invariance_witness :
  completed (apply_cuts_h5py_chunked 3 events3_pair (EntryList [x_gt_1]) 1) =
  completed (apply_cuts_h5py_chunked 3 events3_pair (EntryList [x_gt_1]) 2).
Proof.
  apply (chunksize_invariance 3 events3_pair (EntryList [x_gt_1]) 1 2).
  - repeat constructor.
  - lia.
  - lia.
Defined.

Lemma length_compress {A} (mask : list bool) (a : list A) :
  length mask = length a → length (compress mask a) = count_nonzero mask.
Proof.
  unfold count_nonzero. revert a.
  induction mask as [|m mask IH]; intros [|x a] Hlen; simpl in *; try done.
  destruct m.
  - rewrite filter_cons_True by done. simpl. f_equal. apply IH. lia.
  - rewrite filter_cons_False by done. apply IH. lia.
Qed.

Lemma count_nonzero_le mask : count_nonzero mask <= length mask.
Proof. unfold count_nonzero. apply length_filter. Qed.

Lemma whole_mask_length n_events infile sc mask :
  well_formed n_events infile →
  create_mask_h5py infile sc n_events None None = Ok mask → length mask = n_events.
Proof.
  intros Hwf. unfold create_mask_h5py. cbn [start_or_0 end_or_n_events].
  unfold ones. rewrite decide_False by lia. cbn [bind]. intros Hmask.
  eapply (cuts_h5py_chunk n_events infile 0 n_events); [done|lia| |done].
  rewrite length_replicate. lia.
Qed.

Lemma well_formed_filtered n_events infile mask :
  well_formed n_events infile → length mask = n_events →
  well_formed (count_nonzero mask) (filtered mask infile).
Proof.
  intros Hwf Hlen. unfold well_formed, filtered in *. rewrite Forall_map.
  eapply Forall_impl; [exact Hwf|]. intros [name d] [Hsup Hrows]. cbn [fst snd] in *.
  destruct d as [data|width data| |k n]; try done; cbn [select supported n_rows] in *;
    (split; [done|]); apply length_compress; lia.
Qed.

Lemma schema_filtered mask infile : schema (filtered mask infile) = schema infile.
Proof.
  unfold schema, filtered. rewrite map_map. apply map_ext.
  intros [name d]. cbn [fst snd]. by destruct d.
Qed.

(** X3: when the copy of a well-formed table with rows returns, its output is
    again a well-formed table: the same columns with the same layouts, all
    with one and the same number of rows, which is at most the number of rows
    of the input. *)
Theorem copy_output_is_a_table n_events infile sc chunksize group :
  well_formed n_events infile → 0 < n_events → 0 < chunksize →
  completed (apply_cuts_h5py_chunked n_events infile sc chunksize) = Some group →
  ∃ n_after,
    n_after <= n_events ∧ well_formed n_after group ∧ schema group = schema infile.
Proof.
  intros Hwf Hn Hc. rewrite completed_copy by done.
  destruct (create_mask_h5py infile sc n_events None None) as [mask|e] eqn:Hmask; [|done].
  case_decide; [|done]. intros [= <-].
  pose proof (whole_mask_length _ _ _ _ Hwf Hmask) as Hlen.
  exists (count_nonzero mask). split; [|split].
  - rewrite <-Hlen. apply count_nonzero_le.
  - by apply (well_formed_filtered n_events).
  - apply schema_filtered.
Qed.

Lemma copy_output_is_a_table_witness :
  ∃ n_after,
    n_after <= 3 ∧
    well_formed n_after [("x", Rank1 [2; 3]%Z); ("y", Rank1 [15; 25]%Z);
                         ("cog", Rank2 1 [[8]; [9]]%Z)] ∧
    schema [("x", Rank1 [2; 3]%Z); ("y", Rank1 [15; 25]%Z); ("cog", Rank2 1 [[8]; [9]]%Z)] =
    schema events3_pair.
Proof.
  apply (copy_output_is_a_table 3 events3_pair (EntryList [x_gt_1]) 2).
  - repeat constructor.
  - lia.
  - lia.
  - reflexivity.
Defined.

(** ** Copying the output again *)

Lemma compress_fmap {A B} (f : A -> B) (mask : list bool) (a : list A) :
  compress mask (f <$> a) = f <$> compress mask a.
Proof.
  revert a. induction mask as [|m mask IH]; intros [|x a]; simpl; try done.
  destruct m; simpl; by rewrite IH.
Qed.

Lemma compress_zip_with {A B C} (f : A -> B -> C) (mask : list bool) a b :
  length a = length b →
  compress mask (zip_with f a b) = zip_with f (compress mask a) (compress mask b).
Proof.
  revert a b. induction mask as [|m mask IH]; intros [|x a] [|y b] Hlen; simpl in *;
    try done.
  destruct m; simpl; rewrite IH by lia; done.
Qed.

Lemma compress_replicate {A} (mask : list bool) (x : A) :
  compress mask (replicate (length mask) x) = replicate (count_nonzero mask) x.
Proof.
  unfold count_nonzero. induction mask as [|m mask IH]; simpl; [done|].
  destruct m.
  - rewrite filter_cons_True by done. simpl. by rewrite IH.
  - by rewrite filter_cons_False by done.
Qed.

Lemma compress_self (mask : list bool) :
  compress mask mask = replicate (count_nonzero mask) true.
Proof.
  unfold count_nonzero. induction mask as [|m mask IH]; simpl; [done|].
  destruct m.
  - rewrite filter_cons_True by done. simpl. by rewrite IH.
  - by rewrite filter_cons_False by done.
Qed.

Lemma compress_all_true {A} (a : list A) :
  compress (replicate (length a) true) a = a.
Proof. induction a as [|x a IH]; simpl; [done|]. by rewrite IH. Qed.

Lemma getitem_filtered mask name infile :
  getitem name (filtered mask infile) = select mask <$> getitem name infile.
Proof.
  induction infile as [|[k d] infile IH]; simpl; [done|]. by case_decide.
Qed.

Lemma cut_h5py_filtered n_events infile selected c mask :
  well_formed n_events infile → length selected = n_events → length mask = n_events →
  cut_h5py (filtered selected infile) 0 (count_nonzero selected) c (compress selected mask) =
  on_success (compress selected) (cut_h5py infile 0 n_events c mask).
Proof.
  intros Hwf Hsel Hlen.
  destruct c as [|[name [operator value]] [|]]; [done| |done]. cbn [cut_h5py].
  destruct (OPERATORS !! operator) as [f|]; [|done].
  rewrite getitem_filtered.
  destruct (getitem name infile) as [d|] eqn:Hget; [|done]. cbn [fmap option_fmap option_map].
  apply getitem_Some_elem in Hget. unfold well_formed in Hwf. rewrite Forall_forall in Hwf.
  destruct (Hwf _ Hget) as [Hsup Hrows]. cbn [snd] in *.
  destruct d as [data|width data| |k n]; try done. cbn [select compare_column bind n_rows] in *.
  rewrite !slice_all by (done || (apply length_compress; lia)).
  rewrite !logical_and_same_length
    by (rewrite ?length_map, ?length_compress by lia; lia).
  cbn [on_success]. f_equal.
  rewrite compress_zip_with by (rewrite length_map; lia).
  by rewrite !map_fmap, compress_fmap.
Qed.

Lemma cuts_h5py_filtered n_events infile selected cs mask :
  well_formed n_events infile → length selected = n_events → length mask = n_events →
  cuts_h5py (filtered selected infile) 0 (count_nonzero selected) cs (compress selected mask) =
  on_success (compress selected) (cuts_h5py infile 0 n_events cs mask).
Proof.
  intros Hwf Hsel. revert mask. induction cs as [|c cs IH]; intros mask Hlen; [done|].
  cbn [cuts_h5py]. rewrite (cut_h5py_filtered n_events) by done.
  destruct (cut_h5py_chunk n_events infile 0 n_events c mask Hwf) as [_ Hlen']; [lia|done|].
  destruct (cut_h5py infile 0 n_events c mask) as [mask1|e]; cbn [on_success bind]; [|done].
  by apply IH, Hlen'.
Qed.

Lemma whole_mask_of_output n_events infile sc mask :
  well_formed n_events infile →
  create_mask_h5py infile sc n_events None None = Ok mask →
  create_mask_h5py (filtered mask infile) sc (count_nonzero mask) None None =
  Ok (replicate (count_nonzero mask) true).
Proof.
  intros Hwf Hmask. pose proof (whole_mask_length _ _ _ _ Hwf Hmask) as Hlen.
  assert (compress mask (replicate n_events true) = replicate (count_nonzero mask) true)
    as Hones by (rewrite <-Hlen; apply compress_replicate).
  unfold create_mask_h5py in Hmask |- *. cbn [start_or_0 end_or_n_events] in Hmask |- *.
  unfold ones in Hmask |- *. rewrite decide_False in Hmask by lia.
  rewrite decide_False by lia. cbn [bind] in Hmask |- *.
  rewrite Nat.sub_0_r in Hmask. rewrite Nat.sub_0_r. rewrite <-Hones at 1.
  rewrite (cuts_h5py_filtered n_events) by (done || by rewrite length_replicate).
  rewrite Hmask. cbn [on_success]. by rewrite compress_self.
Qed.

Lemma filtered_all_true n_events group :
  well_formed n_events group → filtered (replicate n_events true) group = group.
Proof.
  unfold well_formed, filtered. intros Hwf.
  induction Hwf as [|[name d] group [Hsup Hrows] _ IH]; [done|].
  cbn [map fst snd] in *. rewrite IH. f_equal. f_equal.
  destruct d as [data|width data| |k n]; try done; cbn [select n_rows] in *;
    by rewrite <-Hrows, compress_all_true.
Qed.

Lemma creatable_filtered mask infile : creatable infile → creatable (filtered mask infile).
Proof.
  intros [Hdup Hnarrow]. split; [by rewrite fst_filtered|].
  unfold filtered. rewrite Forall_map. eapply Forall_impl; [exact Hnarrow|].
  intros [name d]. cbn [fst snd]. by destruct d.
Qed.

(** X4: copying the output of a copy with the same selection changes nothing,
    as long as the output has rows: for a well-formed table with at least one
    column, if the first copy returns a table with [n_after > 0] rows, the
    copy of that table returns the same table, whatever the two chunk sizes. *)
Theorem second_copy_changes_nothing n_events infile sc c1 c2 group n_after :
  well_formed n_events infile → infile ≠ [] →
  0 < n_events → 0 < c1 → 0 < c2 →
  completed (apply_cuts_h5py_chunked n_events infile sc c1) = Some group →
  well_formed n_after group → 0 < n_after →
  completed (apply_cuts_h5py_chunked n_after group sc c2) = Some group.
Proof.
  intros Hwf Hcols Hn Hc1 Hc2. rewrite completed_copy by done.
  destruct (create_mask_h5py infile sc n_events None None) as [mask|e] eqn:Hmask; [|done].
  case_decide as Hcreate; [|done]. intros [= <-] Hwf' Hafter.
  pose proof (whole_mask_length _ _ _ _ Hwf Hmask) as Hlen.
  assert (n_after = count_nonzero mask) as ->.
  { destruct infile as [|[name d] infile]; [done|].
    apply Forall_cons in Hwf as [[Hsup Hrows] _].
    apply Forall_cons in Hwf' as [[_ Hrows'] _]. cbn [fst snd] in *.
    rewrite <-Hrows'.
    destruct d as [data|width data| |k n]; try done; cbn [select n_rows] in *;
      apply length_compress; lia. }
  rewrite completed_copy by done.
  rewrite (whole_mask_of_output n_events) by done.
  rewrite decide_True by (by apply creatable_filtered).
  by rewrite filtered_all_true.
Qed.

Lemma second_copy_changes_nothing_witness :
  completed (apply_cuts_h5py_chunked 2
               [("x", Rank1 [2; 3]%Z); ("y", Rank1 [15; 25]%Z)] (EntryList [x_gt_1]) 1) =
  Some [("x", Rank1 [2; 3]%Z); ("y", Rank1 [15; 25]%Z)].
Proof.
  apply (second_copy_changes_nothing 3 events3 (EntryList [x_gt_1]) 2 1).
  - repeat constructor.
  - done.
  - lia.
  - lia.
  - lia.
  - reflexivity.
  - repeat constructor.
  - lia.
Defined.

(** When no row passes, the output has columns without rows, and its copy has
    no column at all. *)
Example second_copy_of_an_empty_output :
  completed (apply_cuts_h5py_chunked 3 events3 (EntryList [[("x", (">", 9%Z))]]) 2) =
    Some [("x", Rank1 []); ("y", Rank1 [])] ∧
  completed (apply_cuts_h5py_chunked 0 [("x", Rank1 []); ("y", Rank1 [])]
               (EntryList [[("x", (">", 9%Z))]]) 2) = Some [].
Proof. split; reflexivity. Qed.

(** ** The order of the criteria *)

Lemma cuts_h5py_perm infile n_events start end_ cs cs' mask :
  Forall (evaluable infile n_events) cs → cs ≡ₚ cs' →
  end_ <= n_events → length mask = end_ - start →
  cuts_h5py infile start end_ cs mask = cuts_h5py infile start end_ cs' mask.
Proof.
  intros Hcs Hperm Hend Hlen.
  assert (Forall (evaluable infile n_events) cs') as Hcs' by (by rewrite <-Hperm).
  destruct (cuts_h5py_spec _ _ _ _ _ _ Hcs Hend Hlen) as (m1 & -> & Hlen1 & Hspec1).
  destruct (cuts_h5py_spec _ _ _ _ _ _ Hcs' Hend Hlen) as (m2 & -> & Hlen2 & Hspec2).
  f_equal. apply list_eq. intros i.
  destruct (decide (i < end_ - start)) as [Hi|Hi].
  - destruct (lookup_lt_is_Some_2 m1 i) as [b1 Hb1]; [lia|].
    destruct (lookup_lt_is_Some_2 m2 i) as [b2 Hb2]; [lia|].
    specialize (Hspec1 i Hi). specialize (Hspec2 i Hi).
    rewrite Hperm in Hspec1. rewrite <-Hspec2 in Hspec1.
    rewrite Hb1, Hb2 in *. f_equal.
    destruct b1, b2; try done.
    + by destruct Hspec1 as [Himp _]; specialize (Himp eq_refl).
    + by destruct Hspec1 as [_ Himp]; specialize (Himp eq_refl).
  - rewrite !lookup_ge_None_2 by lia. done.
Qed.

Lemma end_or_n_events_le n_events end_ : end_or_n_events n_events end_ <= n_events.
Proof. destruct end_ as [[|e]|]; simpl; lia. Qed.

Lemma for_chunks_ext infile sc sc' n_events chunksize chunks group :
  (∀ start end_, create_mask_h5py infile sc n_events start end_ =
                 create_mask_h5py infile sc' n_events start end_) →
  for_chunks infile sc n_events chunksize chunks group =
  for_chunks infile sc' n_events chunksize chunks group.
Proof.
  intros Hmask. revert group. induction chunks as [|chunk chunks IH]; intros group; [done|].
  cbn [for_chunks]. unfold copy_chunk. rewrite Hmask.
  destruct (create_mask_h5py _ _ _ _ _); [|done].
  destruct chunk; destruct (for_columns _ _ _) as [g [e|]]; auto.
Qed.

(** X5: the criteria are combined by a conjunction, so their order does not
    matter: two configurations whose entries evaluate and are the same up to
    their order give the same masks and the same copy. *)
Theorem order_of_criteria_is_irrelevant infile sc sc' n_events :
  Forall (evaluable infile n_events) (as_entries sc) →
  as_entries sc ≡ₚ as_entries sc' →
  (∀ start end_,
     create_mask_h5py infile sc n_events start end_ =
     create_mask_h5py infile sc' n_events start end_) ∧
  (∀ chunksize,
     apply_cuts_h5py_chunked n_events infile sc chunksize =
     apply_cuts_h5py_chunked n_events infile sc' chunksize).
Proof.
  intros Hsc Hperm.
  assert (∀ start end_,
    create_mask_h5py infile sc n_events start end_ =
    create_mask_h5py infile sc' n_events start end_) as Hmask.
  { intros start end_. unfold create_mask_h5py, ones.
    case_decide; [done|]. cbn [bind].
    apply (cuts_h5py_perm infile n_events); [done|done|apply end_or_n_events_le|].
    by rewrite length_replicate. }
  split; [done|]. intros chunksize. unfold apply_cuts_h5py_chunked.
  destruct chunksize as [|c]; [done|]. by rewrite (for_chunks_ext infile sc sc').
Qed.

Lemma order_of_criteria_is_irrelevant_witness :
  (∀ start end_,
     create_mask_h5py events3 (EntryList [x_gt_1; x_lt_3]) 3 start end_ =
     create_mask_h5py events3 (EntryList [x_lt_3; x_gt_1]) 3 start end_) ∧
  (∀ chunksize,
     apply_cuts_h5py_chunked 3 events3 (EntryList [x_gt_1; x_lt_3]) chunksize =
     apply_cuts_h5py_chunked 3 events3 (EntryList [x_lt_3; x_gt_1]) chunksize).
Proof.
  apply (order_of_criteria_is_irrelevant events3 (EntryList [x_gt_1; x_lt_3])
           (EntryList [x_lt_3; x_gt_1]) 3).
  - repeat constructor; by eexists.
  - apply perm_swap.
Defined.

(** ** A criterion on a missing column *)

(** X6: on a table with at least one row, an entry with a known operator on
    a column that the table does not have, after entries that evaluate, ends
    the copy with the KeyError of the column name while the mask of the first
    chunk is computed; the output group is created and empty. *)
Theorem missing_column_raises n_events infile sc chunksize pre name operator value post :
  0 < n_events → 0 < chunksize →
  as_entries sc = pre ++ [(name, (operator, value))] :: post →
  Forall (evaluable infile n_events) pre →
  is_Some (OPERATORS !! operator) →
  name ∉ map fst infile →
  apply_cuts_h5py_chunked n_events infile sc chunksize =
  {| outfile := Some []; raised := Some (KeyError name) |}.
Proof.
  intros Hn Hc Hsc Hpre [f Hop] Hname.
  apply (first_mask_bad_entry _ _ _ _ pre [(name, (operator, value))] post); [done..|].
  intros mask. cbn [cut_h5py]. rewrite Hop. apply getitem_None in Hname. by rewrite Hname.
Qed.

Lemma missing_column_raises_witness :
  apply_cuts_h5py_chunked 3 events3 (EntryList [x_gt_1; [("z", ("<", 3%Z))]]) 2 =
  {| outfile := Some []; raised := Some (KeyError "z") |}.
Proof.
  apply (missing_column_raises 3 events3 _ 2 [x_gt_1] "z" "<" 3%Z []).
  - lia.
  - lia.
  - reflexivity.
  - repeat constructor; by eexists.
  - by eexists.
  - intros Hin. repeat (apply elem_of_cons in Hin as [Hin|Hin]; [done|]).
    by apply elem_of_nil in Hin.
Defined.

(** * Further properties of the cascade *)

(** ** The first loop: rows written and rows counted *)

Lemma col_of_length t name rs cs : col_of t name rs = Ok cs → length cs = length rs.
Proof.
  revert cs. induction rs as [|r rs IH]; intros cs; cbn [col_of].
  - by intros [= <-].
  - destruct (row_getitem t r name); cbn [bind]; [|done].
    destruct (col_of t name rs) as [cs'|]; cbn [bind]; [|done].
    intros [= <-]. simpl. f_equal. by apply IH.
Qed.

Lemma compare_cells_length f cells value bs :
  compare_cells f cells value = Ok bs → length bs = length cells.
Proof.
  revert bs. induction cells as [|[z|a] cells IH]; intros bs; cbn [compare_cells].
  - by intros [= <-].
  - destruct (compare_cells f cells value) as [bs'|]; cbn [bind]; [|done].
    intros [= <-]. simpl. f_equal. by apply IH.
  - done.
Qed.

Lemma cut_table_length t c mask mask' :
  length mask = length (rows t) →
  cut_table t 0 (length (rows t)) c mask = Ok mask' → length mask' = length (rows t).
Proof.
  intros Hlen. destruct c as [|[name [operator value]] [|]]; [done| |done]. cbn [cut_table].
  case_decide; [|done]. destruct (OPERATORS !! operator) as [f|]; [|done].
  unfold compare_table_column, col. destruct (getitem name (description t)) as [[|w]|]; try done.
  destruct (col_of t name (rows t)) as [column|] eqn:Hcol; cbn [bind]; [|done].
  apply col_of_length in Hcol.
  destruct (compare_cells _ _ _) as [selection|] eqn:Hsel; cbn [bind]; [|done].
  apply compare_cells_length in Hsel. rewrite slice_all in Hsel by done.
  rewrite logical_and_same_length by lia. intros [= <-].
  rewrite length_zip_with. lia.
Qed.

Lemma create_mask_table_length t sc mask :
  create_mask_table t sc (length (rows t)) None None = Ok mask →
  length mask = length (rows t).
Proof.
  unfold create_mask_table. cbn [start_or_0 end_or_n_events].
  unfold ones. rewrite decide_False by lia. cbn [bind].
  assert (length (replicate (length (rows t) - 0) true) = length (rows t)) as Hlen.
  { rewrite length_replicate. lia. }
  revert Hlen. generalize (replicate (length (rows t) - 0) true) as mask0.
  induction (as_entries sc) as [|c cs IH]; intros mask0 Hlen; cbn [cuts_table].
  - by intros [= <-].
  - destruct (cut_table _ _ _ c mask0) as [mask1|] eqn:Hcut; cbn [bind]; [|done].
    apply IH. by eapply cut_table_length.
Qed.

Lemma select_rows_spec t rs mask st st' :
  length mask = length rs →
  select_rows t (zip rs mask) st = (st', None) →
  appended st' = appended st ++ compress mask rs ∧
  n_rows_before st' = n_rows_before st + length rs ∧
  n_rows_after st' = n_rows_after st + count_nonzero mask.
Proof.
  unfold count_nonzero. revert mask st.
  induction rs as [|r rs IH]; intros [|m mask] st Hlen; simpl in Hlen; try done.
  - cbn. intros [= <-]. rewrite app_nil_r. repeat split; lia.
  - cbn [zip zip_with select_rows]. destruct m.
    + destruct (event_of t r); [|done]. intros Hrest.
      destruct (IH mask _ ltac:(lia) Hrest) as (-> & -> & ->).
      cbn [appended n_rows_before n_rows_after compress].
      rewrite filter_cons_True by done. unfold row_all. rewrite <-app_assoc.
      repeat split; simpl; lia.
    + intros Hrest. destruct (IH mask _ ltac:(lia) Hrest) as (-> & -> & ->).
      cbn [appended n_rows_before n_rows_after compress].
      rewrite filter_cons_False by done. repeat split; simpl; lia.
Qed.

Lemma cut_parameters_spec sc n st st' :
  cut_parameters sc n st = (st', None) →
  ∃ t t', n = Table t ∧ selected_from sc t t' ∧
    out1 st' = out1 st ++ [t'] ∧
    before1 st' = before1 st + length (rows t) ∧
    after1 st' = after1 st + length (rows t').
Proof.
  destruct n as [| t |]; cbn [cut_parameters]; [done| |done].
  destruct (create_table _ _ _); [|done].
  destruct (create_mask_table _ _ _ _ _) as [mask|e] eqn:Hmask; [|done].
  destruct (select_rows _ _ _) as [sel [e|]] eqn:Hsel; [done|].
  intros [= <-]. pose proof (create_mask_table_length _ _ _ Hmask) as Hlen.
  destruct (select_rows_spec _ _ _ _ _ Hlen Hsel) as (Happ & Hbefore & Hafter).
  cbn [appended n_rows_before n_rows_after app] in *.
  exists t, (new_table PARAMETERS (v_name t) (description t) (compress mask (rows t))).
  cbn [out1 before1 after1 new_table rows]. rewrite Happ, Hbefore, Hafter.
  rewrite length_compress by done.
  repeat split; try done. by exists mask.
Qed.

Lemma for_parameters_spec sc children st st' :
  for_parameters sc children st = (st', None) →
  ∃ ts written, children = Table <$> ts ∧
    Forall2 (selected_from sc) ts written ∧
    out1 st' = out1 st ++ written ∧
    before1 st' = before1 st + total_rows ts ∧
    after1 st' = after1 st + total_rows written.
Proof.
  unfold total_rows. revert st.
  induction children as [|n children IH]; intros st; cbn [for_parameters].
  - intros [= <-]. exists [], []. rewrite app_nil_r. cbn. repeat split; try done; lia.
  - destruct (cut_parameters sc n st) as [st1 [e|]] eqn:Hcut; [done|].
    intros Hrest.
    destruct (cut_parameters_spec _ _ _ _ Hcut) as (t & t' & -> & Ht & Hout & Hb & Ha).
    destruct (IH _ Hrest) as (ts & written & -> & Hts & Hout' & Hb' & Ha').
    exists (t :: ts), (t' :: written). rewrite Hout', Hb', Ha', Hout, Hb, Ha.
    rewrite <-app_assoc. cbn. repeat split; try done; try lia. by constructor.
Qed.

Lemma parameter_tables_of_children in_ ts :
  filter (fun n => node_parent n = PARAMETERS) in_ = Table <$> ts →
  parameter_tables in_ = ts.
Proof.
  unfold parameter_tables. revert ts.
  induction in_ as [|n in_ IH]; intros ts.
  - by destruct ts.
  - destruct (decide (node_parent n = PARAMETERS)) as [Hn|Hn].
    + rewrite filter_cons_True by done. destruct ts as [|t ts]; [done|].
      rewrite fmap_cons. intros [= -> Hrest]. cbn [omap list_omap]. cbn in Hn.
      rewrite decide_True by done. f_equal. by apply IH.
    + rewrite filter_cons_False by done. intros Hrest. cbn [omap list_omap].
      destruct n as [| t |]; cbn in Hn; rewrite ?decide_False by done; by apply IH.
Qed.

Lemma total_rows_selected sc ts written :
  Forall2 (selected_from sc) ts written → total_rows written <= total_rows ts.
Proof.
  unfold total_rows. induction 1 as [|t t' ts written Ht _ IH]; cbn; [done|].
  destruct Ht as (_ & _ & _ & mask & _ & Hlen & ->).
  rewrite length_compress by done. pose proof (count_nonzero_le mask). lia.
Qed.

(** X7: when the first loop of the cascade returns, it has written one table
    per parameter table, in order and after the tables that were in the
    output file: each with the rows of its parameter table at which the mask
    holds.  The first count is the number of rows of the parameter tables,
    the second the number of rows written, and it is the smaller one. *)
Theorem first_loop_writes_the_selected_rows in_ out0 sc st :
  parameter_phase in_ out0 sc = (st, None) →
  ∃ written,
    out1 st = out0 ++ written ∧
    Forall2 (selected_from sc) (parameter_tables in_) written ∧
    before1 st = total_rows (parameter_tables in_) ∧
    after1 st = total_rows written ∧
    after1 st <= before1 st.
Proof.
  unfold parameter_phase. destruct (parameters in_) as [children|e] eqn:Hchildren; [|done].
  intros Hphase.
  destruct (for_parameters_spec _ _ _ _ Hphase) as (ts & written & Hts & Hsel & Hout & Hb & Ha).
  cbn [out1 before1 after1] in *.
  unfold parameters in Hchildren. destruct (existsb _ _); [|done].
  injection Hchildren as Hchildren. rewrite <-Hchildren in Hts.
  apply parameter_tables_of_children in Hts. subst ts.
  exists written. rewrite Hb, Ha. repeat split; try done.
  cbn. by eapply total_rows_selected.
Qed.

Lemma first_loop_writes_the_selected_rows_witness :
  ∃ written,
    out1 (fst (parameter_phase dl1_file [] (EntryList [x_gt_1]))) = [] ++ written ∧
    Forall2 (selected_from (EntryList [x_gt_1])) (parameter_tables dl1_file) written ∧
    before1 (fst (parameter_phase dl1_file [] (EntryList [x_gt_1]))) =
      total_rows (parameter_tables dl1_file) ∧
    after1 (fst (parameter_phase dl1_file [] (EntryList [x_gt_1]))) = total_rows written ∧
    after1 (fst (parameter_phase dl1_file [] (EntryList [x_gt_1]))) <=
      before1 (fst (parameter_phase dl1_file [] (EntryList [x_gt_1]))).
Proof.
  apply (first_loop_writes_the_selected_rows dl1_file [] (EntryList [x_gt_1])).
  reflexivity.
Defined.

(** ** The tables that were in the output file *)

Lemma cut_parameters_prefix sc n st st' e :
  cut_parameters sc n st = (st', e) → out1 st `prefix_of` out1 st'.
Proof.
  destruct n as [| t |]; cbn [cut_parameters]; [by intros [= <- _]| |by intros [= <- _]].
  destruct (create_table _ _ _); [|by intros [= <- _]].
  destruct (create_mask_table _ _ _ _ _) as [mask|e'].
  - destruct (select_rows _ _ _) as [sel e']. intros [= <- _]. by eexists.
  - intros [= <- _]. by eexists.
Qed.

Lemma for_parameters_prefix sc children st st' e :
  for_parameters sc children st = (st', e) → out1 st `prefix_of` out1 st'.
Proof.
  revert st. induction children as [|n children IH]; intros st; cbn [for_parameters].
  - by intros [= <- _].
  - destruct (cut_parameters sc n st) as [st1 [e1|]] eqn:Hcut.
    + intros [= <- _]. by eapply cut_parameters_prefix.
    + intros Hrest. etrans; [by eapply cut_parameters_prefix|by eapply IH].
Qed.

Lemma copy_other_prefix showers n out out' e :
  copy_other showers n out = (out', e) → out `prefix_of` out'.
Proof.
  destruct n as [| t |]; cbn [copy_other]; [by intros [= <- _]| |by intros [= <- _]].
  case_decide; [by intros [= <- _]|].
  destruct (create_table _ _ _); [|by intros [= <- _]].
  destruct (copy_rows _ _ _ _) as [kept e']. intros [= <- _]. by eexists.
Qed.

Lemma for_walk_nodes_prefix showers nodes out out' e :
  for_walk_nodes showers nodes out = (out', e) → out `prefix_of` out'.
Proof.
  revert out. induction nodes as [|n nodes IH]; intros out; cbn [for_walk_nodes].
  - by intros [= <- _].
  - destruct (copy_other showers n out) as [out1 [e1|]] eqn:Hcopy.
    + intros [= <- _]. by eapply copy_other_prefix.
    + intros Hrest. etrans; [by eapply copy_other_prefix|by eapply IH].
Qed.

(** X8: the output file is only ever appended to.  Whatever the input, the
    selection and the outcome of the call, the tables that were in the output
    file when it was opened are still there afterwards, unchanged and before
    the tables that the call created. *)
Theorem tables_of_the_output_file_are_kept in_ out0 sc :
  out0 `prefix_of` out_ (apply_cuts_cta_dl1 in_ out0 sc).
Proof.
  unfold apply_cuts_cta_dl1.
  assert (out0 `prefix_of` out1 (fst (parameter_phase in_ out0 sc))) as Hphase.
  { unfold parameter_phase. destruct (parameters in_) as [children|e]; [|done].
    destruct (for_parameters _ _ _) as [st e] eqn:Hloop.
    by apply for_parameters_prefix in Hloop. }
  destruct (parameter_phase in_ out0 sc) as [st [e|]]; [done|]. cbn [fst] in Hphase.
  destruct (for_walk_nodes _ _ _) as [out' e] eqn:Hwalk.
  apply for_walk_nodes_prefix in Hwalk. destruct e; cbn [out_]; by etrans.
Qed.

Lemma create_table_taken out parent name :
  Exists (same_node parent name) out →
  create_table out parent name = Raise (NodeError (join_path parent name)).
Proof. intros Hin. unfold create_table. by rewrite decide_True. Qed.

Lemma Exists_prefix {A} (P : A → Prop) (l k : list A) :
  l `prefix_of` k → Exists P l → Exists P k.
Proof. intros [m ->] Hl. apply Exists_app. by left. Qed.

Lemma for_walk_nodes_created showers nodes out out' :
  for_walk_nodes showers nodes out = (out', None) →
  ∀ t, t ∈ dependent_tables nodes → Exists (same_node (v_parent t) (v_name t)) out'.
Proof.
  unfold dependent_tables. revert out.
  induction nodes as [|n nodes IH]; intros out; cbn [for_walk_nodes omap list_omap].
  - intros _ t Ht. by apply elem_of_nil in Ht.
  - destruct (copy_other showers n out) as [out1 [e|]] eqn:Hcopy; [done|].
    intros Hrest t Ht.
    destruct n as [| t0 |]; try by eapply IH.
    destruct (decide (v_parent t0 = PARAMETERS)) as [Hp|Hp]; [by eapply IH|].
    apply elem_of_cons in Ht as [->|Ht]; [|by eapply IH].
    cbn [copy_other] in Hcopy. rewrite decide_False in Hcopy by done.
    destruct (create_table _ _ _); [|done].
    destruct (copy_rows _ _ _ _) as [kept e']. injection Hcopy as <- _.
    eapply Exists_prefix; [by eapply for_walk_nodes_prefix|].
    apply Exists_app. right. by apply Exists_cons_hd.
Qed.

Lemma for_walk_nodes_taken showers nodes out :
  (∀ t, t ∈ dependent_tables nodes → Exists (same_node (v_parent t) (v_name t)) out) →
  dependent_tables nodes ≠ [] →
  ∃ path, for_walk_nodes showers nodes out = (out, Some (NodeError path)).
Proof.
  unfold dependent_tables.
  induction nodes as [|n nodes IH]; cbn [for_walk_nodes omap list_omap]; [done|].
  intros Htaken Hsome.
  destruct n as [| t0 |]; cbn [copy_other]; try by apply IH.
  destruct (decide (v_parent t0 = PARAMETERS)) as [Hp|Hp]; [by apply IH|].
  rewrite create_table_taken by (apply Htaken, list_elem_of_here). by eexists.
Qed.

(** X9: the call refuses to write over its own output.  After a call on a new
    output file has returned, a second call with the same input on that
    output file raises NodeError at the first table it wants to create,
    provided the input holds a table at all. *)
Theorem second_call_on_the_output_raises in_ sc counts :
  returned (apply_cuts_cta_dl1 in_ [] sc) = Ok counts →
  parameter_tables in_ ++ dependent_tables in_ ≠ [] →
  ∃ path,
    returned (apply_cuts_cta_dl1 in_ (out_ (apply_cuts_cta_dl1 in_ [] sc)) sc) =
    Raise (NodeError path).
Proof.
  unfold apply_cuts_cta_dl1 at 1 3.
  destruct (parameter_phase in_ [] sc) as [st [e|]] eqn:Hphase; [done|].
  destruct (for_walk_nodes (showers1 st) in_ (out1 st)) as [out' [e|]] eqn:Hwalk; [done|].
  cbn [returned out_]. intros _ Htables.
  pose proof (for_walk_nodes_prefix _ _ _ _ _ Hwalk) as Hprefix.
  pose proof (for_walk_nodes_created _ _ _ _ Hwalk) as Hcreated.
  unfold apply_cuts_cta_dl1, parameter_phase in *.
  destruct (parameters in_) as [children|e] eqn:Hchildren; [|done].
  destruct (for_parameters_spec _ _ _ _ Hphase) as (ts & written & -> & Hsel & Hout & _).
  cbn [out1 app] in Hout.
  assert (parameter_tables in_ = ts) as Hts.
  { unfold parameters in Hchildren. destruct (existsb _ _); [|done].
    injection Hchildren as Hchildren. by apply parameter_tables_of_children. }
  destruct Hsel as [|t t' ts written (Hparent & Hname & _) _].
  - cbn [fmap list_fmap for_parameters out1 showers1].
    destruct (for_walk_nodes_taken ∅ in_ out') as [path ->]; [done| |by eexists].
    by rewrite Hts in Htables.
  - cbn [fmap list_fmap for_parameters cut_parameters out1].
    rewrite create_table_taken; [by eexists|].
    eapply Exists_prefix; [exact Hprefix|]. rewrite Hout.
    apply Exists_cons_hd. by split.
Qed.

Lemma second_call_on_the_output_raises_witness :
  ∃ path,
    returned (apply_cuts_cta_dl1 dl1_file
                (out_ (apply_cuts_cta_dl1 dl1_file [] (EntryList [x_gt_1])))
                (EntryList [x_gt_1])) =
    Raise (NodeError path).
Proof.
  apply (second_call_on_the_output_raises dl1_file (EntryList [x_gt_1]) (3, 2)).
  - reflexivity.
  - done.
Defined.

(** * The cascade: rows are kept by their key *)

(** ** The key that the code reads *)

Lemma key_of_Some t r obs_id event_id :
  key_of t r = Some (obs_id, event_id) ↔
  row_getitem t r "obs_id" = Ok (Scalar obs_id) ∧
  row_getitem t r "event_id" = Ok (Scalar event_id).
Proof.
  unfold key_of.
  destruct (row_getitem t r "obs_id") as [[o|a]|e1];
    destruct (row_getitem t r "event_id") as [[e|a']|e2];
    (split; [intros [= <- <-]|intros [[= <-] [= <-]]]); done.
Qed.

Lemma event_of_key_of t r key : event_of t r = Ok key ↔ key_of t r = Some key.
Proof.
  unfold event_of, key_of.
  destruct (row_getitem t r "obs_id") as [[o|a]|e1]; cbn [bind];
    destruct (row_getitem t r "event_id") as [[e|a']|e2]; cbn [bind];
    (split; [intros [= <-]|intros [= <-]]); done.
Qed.

Lemma event_of_raises t r : key_of t r = None → ∃ e, event_of t r = Raise e.
Proof.
  unfold event_of, key_of.
  destruct (row_getitem t r "obs_id") as [[o|a]|e1]; cbn [bind];
    destruct (row_getitem t r "event_id") as [[e|a']|e2]; cbn [bind];
    intros Hkey; try done; by eexists.
Qed.

(** ** The rows at which the mask of a parameter table holds *)

Lemma col_of_scalar_cells t name f value rs : ∀ column selection,
  col_of t name rs = Ok column →
  compare_cells f column value = Ok selection →
  Forall (fun r => ∃ z, row_getitem t r name = Ok (Scalar z)) rs.
Proof.
  induction rs as [|r rs IH]; intros column selection; cbn [col_of]; [by constructor|].
  destruct (row_getitem t r name) as [c|] eqn:Hc; cbn [bind]; [|done].
  destruct (col_of t name rs) as [cs|] eqn:Hcs; cbn [bind]; [|done].
  intros [= <-]. destruct c as [z|a]; cbn [compare_cells]; [|done].
  destruct (compare_cells f cs value) as [bs|] eqn:Hbs; cbn [bind]; [|done].
  intros _. constructor; [by exists z|]. by eapply IH.
Qed.

Lemma cut_table_evaluable t c mask mask' :
  cut_table t 0 (length (rows t)) c mask = Ok mask' → evaluable_table t c.
Proof.
  destruct c as [|[name [operator value]] [|]]; [done| |done].
  cbn [cut_table evaluable_table].
  case_decide; [|done]. destruct (OPERATORS !! operator) as [f|]; [|done].
  unfold compare_table_column, col.
  destruct (getitem name (description t)) as [[|w]|]; try done.
  destruct (col_of t name (rows t)) as [column|] eqn:Hcol; cbn [bind]; [|done].
  rewrite slice_all by (by eapply col_of_length).
  destruct (compare_cells _ _ _) as [selection|] eqn:Hsel; cbn [bind]; [|done].
  intros _. split; [by eexists|]. split; [done|]. by eapply col_of_scalar_cells.
Qed.

Lemma cuts_table_evaluable t cs : ∀ mask mask',
  cuts_table t 0 (length (rows t)) cs mask = Ok mask' → Forall (evaluable_table t) cs.
Proof.
  induction cs as [|c cs IH]; intros mask mask'; cbn [cuts_table]; [by constructor|].
  destruct (cut_table _ _ _ c mask) as [mask1|] eqn:Hcut; cbn [bind]; [|done].
  intros Hrest. constructor; [by eapply cut_table_evaluable|by eapply IH].
Qed.

Lemma create_mask_table_rows t sc mask :
  create_mask_table t sc (length (rows t)) None None = Ok mask →
  ∀ i, i < length (rows t) →
    (mask !! i = Some true ↔ Forall (holds_at_row t i) (as_entries sc)).
Proof.
  unfold create_mask_table. cbn [start_or_0 end_or_n_events].
  unfold ones. rewrite decide_False by lia. cbn [bind].
  intros Hmask.
  destruct (cuts_table_spec t 0 (length (rows t)) (as_entries sc)
              (replicate (length (rows t) - 0) true))
    as (mask' & Hmask' & Hlen & Hspec);
    [by eapply cuts_table_evaluable|lia|by rewrite length_replicate|].
  rewrite Hmask in Hmask'. injection Hmask' as <-.
  intros i Hi. rewrite Hspec, lookup_replicate_2 by lia. simpl. tauto.
Qed.

(** ** The set of the remaining showers *)

Lemma select_rows_showers t zipped st st' :
  select_rows t zipped st = (st', None) →
  ∀ event, event ∈ remaining_showers st' ↔
    event ∈ remaining_showers st ∨ ∃ r, (r, true) ∈ zipped ∧ event_of t r = Ok event.
Proof.
  revert st. induction zipped as [|[r matched] zipped IH]; intros st; cbn [select_rows].
  - intros [= <-] event. split; [by left|]. intros [?|(r & Hr & _)]; [done|].
    by apply elem_of_nil in Hr.
  - destruct matched.
    + destruct (event_of t r) as [ev|e] eqn:Hev; [|done].
      intros Hrest event. rewrite (IH _ Hrest). cbn [remaining_showers].
      rewrite elem_of_union, elem_of_singleton. split.
      * intros [[->|?]|(r' & Hr' & Hev')]; [right|by left|right].
        -- exists r. split; [apply list_elem_of_here|done].
        -- exists r'. split; [by apply list_elem_of_further|done].
      * intros [?|(r' & Hr' & Hev')]; [by left; right|].
        apply elem_of_cons in Hr' as [[= -> ]|Hr'].
        -- left; left. congruence.
        -- right. by exists r'.
    + intros Hrest event. rewrite (IH _ Hrest). cbn [remaining_showers].
      split; (intros [?|(r' & Hr' & Hev')]; [by left|right]).
      * exists r'. split; [by apply list_elem_of_further|done].
      * apply elem_of_cons in Hr' as [[=]|Hr']. by exists r'.
Qed.

Lemma elem_of_zip_true {A} (rs : list A) (mask : list bool) r :
  (r, true) ∈ zip rs mask ↔ ∃ i, rs !! i = Some r ∧ mask !! i = Some true.
Proof.
  rewrite list_elem_of_lookup. split.
  - intros [i Hi]. exists i. apply lookup_zip_with_Some in Hi as (x & y & [= <- <-] & ? & ?).
    done.
  - intros (i & Hr & Hm). exists i. apply lookup_zip_with_Some. by exists r, true.
Qed.

Lemma cut_parameters_showers sc n st st' :
  cut_parameters sc n st = (st', None) →
  ∃ t mask, n = Table t ∧
    create_mask_table t sc (length (rows t)) None None = Ok mask ∧
    ∀ event, event ∈ showers1 st' ↔
      event ∈ showers1 st ∨
      ∃ i r, rows t !! i = Some r ∧ mask !! i = Some true ∧ event_of t r = Ok event.
Proof.
  destruct n as [| t |]; cbn [cut_parameters]; [done| |done].
  destruct (create_table _ _ _); [|done].
  destruct (create_mask_table _ _ _ _ _) as [mask|e] eqn:Hmask; [|done].
  destruct (select_rows _ _ _) as [sel [e|]] eqn:Hsel; [done|].
  intros [= <-]. exists t, mask. split; [done|]. split; [done|].
  intros event. cbn [showers1]. rewrite (select_rows_showers _ _ _ _ Hsel).
  cbn [remaining_showers]. setoid_rewrite elem_of_zip_true.
  split; (intros [?|Hrow]; [by left|right]).
  - destruct Hrow as (r & (i & ? & ?) & ?). by exists i, r.
  - destruct Hrow as (i & r & ? & ? & ?). exists r. split; [by exists i|done].
Qed.

Lemma for_parameters_showers sc children st st' :
  for_parameters sc children st = (st', None) →
  (∀ t, Table t ∈ children →
        ∃ mask, create_mask_table t sc (length (rows t)) None None = Ok mask) ∧
  ∀ event, event ∈ showers1 st' ↔
    event ∈ showers1 st ∨
    ∃ t mask i r, Table t ∈ children ∧
      create_mask_table t sc (length (rows t)) None None = Ok mask ∧
      rows t !! i = Some r ∧ mask !! i = Some true ∧ event_of t r = Ok event.
Proof.
  revert st. induction children as [|n children IH]; intros st; cbn [for_parameters].
  - intros [= <-]. split; [intros t Hin; by apply elem_of_nil in Hin|].
    intros event. split; [by left|]. intros [?|(t & ? & ? & ? & Hin & _)]; [done|].
    by apply elem_of_nil in Hin.
  - destruct (cut_parameters sc n st) as [st1 [e|]] eqn:Hcut; [done|].
    intros Hrest. destruct (IH _ Hrest) as [Hmasks Hset].
    destruct (cut_parameters_showers _ _ _ _ Hcut) as (t & mask & -> & Hmask & Hfirst).
    split.
    { intros t' [[= ->]|Hin]%elem_of_cons; [by exists mask|by apply Hmasks]. }
    intros event. rewrite Hset, Hfirst. split.
    + intros [[?|(i & r & ? & ? & ?)]|(t' & mask' & i & r & Hin & ?)]; [by left|right..].
      * exists t, mask, i, r. split; [apply list_elem_of_here|done].
      * exists t', mask', i, r. split; [by apply list_elem_of_further|done].
    + intros [?|(t' & mask' & i & r & Hin & Hmask' & Hr & Hm & Hev)]; [by left; left|].
      apply elem_of_cons in Hin as [[= ->]|Hin].
      * left; right. exists i, r. assert (mask' = mask) as -> by congruence. done.
      * right. by exists t', mask', i, r.
Qed.

Lemma elem_of_parameter_tables in_ t :
  t ∈ parameter_tables in_ ↔ Table t ∈ in_ ∧ v_parent t = PARAMETERS.
Proof.
  unfold parameter_tables. rewrite list_elem_of_omap. split.
  - intros ([| t' |] & Hin & Hsome); try done. case_decide; [|done]. by simplify_eq.
  - intros [Hin Hparent]. exists (Table t). split; [done|]. by rewrite decide_True.
Qed.

Lemma parameter_phase_showers in_ out0 sc st :
  parameter_phase in_ out0 sc = (st, None) →
  ∀ obs_id event_id,
    (obs_id, event_id) ∈ showers1 st ↔ passing_key in_ sc obs_id event_id.
Proof.
  unfold parameter_phase. destruct (parameters in_) as [children|e] eqn:Hchildren; [|done].
  intros Hphase obs_id event_id.
  destruct (for_parameters_showers _ _ _ _ Hphase) as [Hmasks ->]. cbn [showers1].
  unfold parameters in Hchildren. destruct (existsb _ _); [|done]. simplify_eq.
  unfold passing_key. split.
  - intros [Hempty|(t & mask & i & r & Hin & Hmask & Hr & Hm & Hev)];
      [by apply not_elem_of_empty in Hempty|].
    apply list_elem_of_filter in Hin as [Hparent Hin]. cbn [node_parent] in Hparent.
    exists t, i, r. split; [by apply elem_of_parameter_tables|]. split; [done|].
    split.
    + apply (create_mask_table_rows _ _ _ Hmask); [by eapply lookup_lt_Some|done].
    + by apply key_of_Some, event_of_key_of.
  - intros (t & i & r & Hin & Hr & Hholds & Hobs & Hevent). right.
    apply elem_of_parameter_tables in Hin as [Hin Hparent].
    assert (Table t ∈ filter (fun n => node_parent n = PARAMETERS) in_) as Hchild.
    { by apply list_elem_of_filter. }
    destruct (Hmasks t Hchild) as [mask Hmask].
    exists t, mask, i, r. split; [done|]. split; [done|]. split; [done|]. split.
    + apply (create_mask_table_rows _ _ _ Hmask); [by eapply lookup_lt_Some|done].
    + by apply event_of_key_of, key_of_Some.
Qed.

(** ** The dependent tables *)

Lemma copy_rows_exposed t showers rs kept :
  "event_id" ∈ colnames t →
  Forall (fun r => is_Some (key_of t r)) rs →
  copy_rows t showers rs kept = (kept ++ filter (survives showers t) rs, None).
Proof.
  intros Hcol Hrs. revert kept.
  induction Hrs as [|r rs [key Hkey] _ IH]; intros kept; cbn [copy_rows].
  - by rewrite app_nil_r.
  - rewrite decide_True by done. rewrite (proj2 (event_of_key_of t r key) Hkey).
    destruct (decide (key ∈ showers)) as [Hin|Hout].
    + rewrite IH, filter_cons_True by (unfold survives; by rewrite Hkey).
      by rewrite <-app_assoc.
    + rewrite IH, filter_cons_False by (unfold survives; by rewrite Hkey). done.
Qed.

Lemma copy_rows_raises t showers rs : ∀ kept,
  "event_id" ∈ colnames t →
  ¬ Forall (fun r => is_Some (key_of t r)) rs →
  ∃ kept' e, copy_rows t showers rs kept = (kept', Some e).
Proof.
  induction rs as [|r rs IH]; intros kept Hcol Hrs; [by destruct Hrs; constructor|].
  cbn [copy_rows]. rewrite decide_True by done.
  destruct (key_of t r) as [key|] eqn:Hkey.
  - rewrite (proj2 (event_of_key_of t r key) Hkey).
    assert (¬ Forall (fun r => is_Some (key_of t r)) rs) as Hrest.
    { intros Hall. apply Hrs. constructor; [by rewrite Hkey|done]. }
    destruct (decide (key ∈ showers)); by apply IH.
  - destruct (event_of_raises t r Hkey) as [e ->]. by eauto.
Qed.

Lemma copy_rows_cascaded t showers :
  keyed t → copy_rows t showers (rows t) [] = (rows (cascaded showers t), None).
Proof.
  intros Hkeys. cbn [cascaded rows]. destruct (decide ("event_id" ∈ colnames t)) as [Hcol|Hcol].
  - rewrite copy_rows_exposed; [done|done|by apply Hkeys].
  - by rewrite copy_rows_without_event_id.
Qed.

Lemma copy_other_dependent showers t out :
  v_parent t ≠ PARAMETERS →
  Forall (fun t0 => location t0 ≠ location t) out →
  keyed t →
  copy_other showers (Table t) out = (out ++ [cascaded showers t], None).
Proof.
  intros Hparent Hout Hkeys. cbn [copy_other]. rewrite decide_False by done.
  unfold create_table. rewrite decide_False; [by rewrite copy_rows_cascaded|].
  rewrite Exists_exists. intros (t0 & Hin & Hp & Hn).
  rewrite Forall_forall in Hout. apply (Hout t0 Hin). unfold location. congruence.
Qed.

Lemma copy_other_raises showers t out :
  v_parent t ≠ PARAMETERS → ¬ keyed t →
  ∃ out' e, copy_other showers (Table t) out = (out', Some e).
Proof.
  intros Hparent Hkeys. cbn [copy_other]. rewrite decide_False by done.
  destruct (create_table out (v_parent t) (v_name t)); [|by eauto].
  destruct (decide ("event_id" ∈ colnames t)) as [Hcol|Hcol];
    [|by destruct Hkeys; intros ?].
  destruct (copy_rows_raises t showers (rows t) [] Hcol) as (kept & e & ->).
  - intros Hall. apply Hkeys. by intros _.
  - by eauto.
Qed.

Lemma for_walk_nodes_cascaded showers nodes out :
  NoDup (location <$> dependent_tables nodes) →
  Forall keyed (dependent_tables nodes) →
  Forall (fun t0 => location t0 ∉ location <$> dependent_tables nodes) out →
  for_walk_nodes showers nodes out =
  (out ++ (cascaded showers <$> dependent_tables nodes), None).
Proof.
  revert out. induction nodes as [|n nodes IH]; intros out Hdup Hkeys Hout.
  - cbn. by rewrite app_nil_r.
  - cbn [for_walk_nodes]. destruct n as [parent name| t |parent name].
    + cbn [copy_other]. by apply IH.
    + unfold dependent_tables in *. cbn [omap list_omap] in *.
      destruct (decide (v_parent t = PARAMETERS)) as [Hparent|Hparent].
      * cbn [copy_other]. rewrite decide_True by done. by apply IH.
      * rewrite fmap_cons in Hdup, Hout. apply NoDup_cons in Hdup as [Hfresh Hdup].
        apply Forall_cons in Hkeys as [Hkey Hkeys].
        rewrite copy_other_dependent; [|done| |done].
        -- rewrite IH; [by rewrite fmap_cons, <-app_assoc|done..|].
           apply Forall_app. split.
           ++ eapply Forall_impl; [exact Hout|]. intros t0 Ht0.
              by apply not_elem_of_cons in Ht0 as [_ ?].
           ++ by apply Forall_singleton.
        -- eapply Forall_impl; [exact Hout|]. intros t0 Ht0.
           by apply not_elem_of_cons in Ht0 as [? _].
    + cbn [copy_other]. by apply IH.
Qed.

Lemma cut_parameters_out sc n st st' e :
  cut_parameters sc n st = (st', e) →
  Forall (fun t => v_parent t = PARAMETERS) (out1 st) →
  Forall (fun t => v_parent t = PARAMETERS) (out1 st').
Proof.
  destruct n as [| t |]; cbn [cut_parameters]; [by intros [= <- _]| |by intros [= <- _]].
  destruct (create_table _ _ _); [|by intros [= <- _]].
  destruct (create_mask_table _ _ _ _ _) as [mask|e'].
  - destruct (select_rows _ _ _) as [sel e']. intros [= <- _] Hout. cbn [out1].
    apply Forall_app. split; [done|]. by apply Forall_singleton.
  - intros [= <- _] Hout. cbn [out1].
    apply Forall_app. split; [done|]. by apply Forall_singleton.
Qed.

Lemma for_parameters_out sc children st st' e :
  for_parameters sc children st = (st', e) →
  Forall (fun t => v_parent t = PARAMETERS) (out1 st) →
  Forall (fun t => v_parent t = PARAMETERS) (out1 st').
Proof.
  revert st. induction children as [|n children IH]; intros st; cbn [for_parameters].
  - by intros [= <- _].
  - destruct (cut_parameters sc n st) as [st1 [e1|]] eqn:Hcut.
    + intros [= <- _]. by eapply cut_parameters_out.
    + intros Hrest Hout. eapply IH; [done|]. by eapply cut_parameters_out.
Qed.

Lemma parameter_phase_out in_ sc st e :
  parameter_phase in_ [] sc = (st, e) →
  Forall (fun t => v_parent t = PARAMETERS) (out1 st).
Proof.
  unfold parameter_phase. destruct (parameters in_) as [children|e'].
  - intros Hphase. eapply for_parameters_out; [done|]. by apply Forall_nil.
  - intros [= <- _]. by apply Forall_nil.
Qed.

Lemma dependent_tables_parent in_ t :
  t ∈ dependent_tables in_ → Table t ∈ in_ ∧ v_parent t ≠ PARAMETERS.
Proof.
  unfold dependent_tables. rewrite list_elem_of_omap.
  intros ([| t' |] & Hin & Hsome); try done. case_decide; [done|]. by simplify_eq.
Qed.

(** C3, as the code has it.  Once the first loop has returned, the set holds
    exactly the pairs [(obs_id, event_id)] read from the rows of the parameter
    tables at which every criterion of the selection holds.  The second loop
    decides by the column [event_id] alone.  When every table outside the
    parameters group that has this column has numbers in [obs_id] and
    [event_id] in each of its rows, the call returns and has written, for
    every such table, a table at the same place with the same description:
    with the rows whose pair [(obs_id, event_id)] is the key of a passing row,
    in their order, when the table has the column [event_id], and with all its
    rows when it has not.  When one of these tables has the column [event_id]
    and a row without such a pair, the call raises: a table that has
    [event_id] and lacks [obs_id] is not copied unchanged. *)
Theorem cascade_keeps_surviving_rows in_ sc st :
  parameter_phase in_ [] sc = (st, None) →
  NoDup (location <$> dependent_tables in_) →
  (∀ obs_id event_id,
     (obs_id, event_id) ∈ showers1 st ↔ passing_key in_ sc obs_id event_id) ∧
  (Forall keyed (dependent_tables in_) →
     apply_cuts_cta_dl1 in_ [] sc =
       {| out_ := out1 st ++ (cascaded (showers1 st) <$> dependent_tables in_);
          returned := Ok (before1 st, after1 st) |} ∧
     ∀ t, t ∈ dependent_tables in_ →
       ("event_id" ∈ colnames t →
          ∀ r, r ∈ rows (cascaded (showers1 st) t) ↔
               r ∈ rows t ∧
               ∃ obs_id event_id,
                 row_getitem t r "obs_id" = Ok (Scalar obs_id) ∧
                 row_getitem t r "event_id" = Ok (Scalar event_id) ∧
                 passing_key in_ sc obs_id event_id) ∧
       ("event_id" ∉ colnames t → cascaded (showers1 st) t = t)) ∧
  (¬ Forall keyed (dependent_tables in_) →
     ∃ e, returned (apply_cuts_cta_dl1 in_ [] sc) = Raise e).
Proof.
  intros Hphase Hdup.
  pose proof (parameter_phase_showers _ _ _ _ Hphase) as Hset.
  split; [done|]. split.
  - intros Hkeys. split.
    + unfold apply_cuts_cta_dl1. rewrite Hphase.
      rewrite for_walk_nodes_cascaded; [done..|].
      eapply Forall_impl; [by eapply parameter_phase_out|].
      intros t0 Hparent (t & Hloc & Ht)%list_elem_of_fmap.
      apply dependent_tables_parent in Ht as [_ Ht]. unfold location in Hloc. congruence.
    + intros t Ht. split.
      * intros Hcol r. cbn [cascaded rows]. rewrite decide_True by done.
        rewrite list_elem_of_filter. unfold survives. split.
        -- intros [Hkey Hr]. split; [done|].
           destruct (key_of t r) as [[obs_id event_id]|] eqn:Hkey_of; [|done].
           apply key_of_Some in Hkey_of as [Hobs Hevent].
           exists obs_id, event_id. split; [done|]. split; [done|]. by apply Hset.
        -- intros [Hr (obs_id & event_id & Hobs & Hevent & Hpass)]. split; [|done].
           rewrite (proj2 (key_of_Some t r obs_id event_id)) by done. by apply Hset.
      * intros Hcol. destruct t. unfold cascaded. cbn in *. by rewrite decide_False.
  - intros Hkeys. apply (not_Forall_Exists _) in Hkeys.
    apply Exists_exists in Hkeys as (t & Ht & Hkeys).
    apply dependent_tables_parent in Ht as [Hin Hparent].
    unfold apply_cuts_cta_dl1. rewrite Hphase.
    destruct (for_walk_nodes_stops (showers1 st) in_ (Table t) (out1 st) Hin)
      as (out' & e & ->); [|by eauto].
    intros out. by apply copy_other_raises.
Qed.

Lemma cascade_keeps_surviving_rows_witness :
  apply_cuts_cta_dl1 dl1_file [] (EntryList [x_gt_1]) =
  {| out_ :=
       [ new_table PARAMETERS "tel_001" (description tel_001)
           [ [Scalar 1; Scalar 1; Scalar 5]; [Scalar 2; Scalar 1; Scalar 7] ]%Z;
         new_table (v_parent images_001) "tel_001" (description images_001)
           [ [Scalar 1; Scalar 1; Vector [10; 11]];
             [Scalar 2; Scalar 1; Vector [30; 31]] ]%Z;
         optics ];
     returned := Ok (3, 2) |}.
Proof.
  destruct (cascade_keeps_surviving_rows dl1_file (EntryList [x_gt_1])
              (fst (parameter_phase dl1_file [] (EntryList [x_gt_1]))))
    as (_ & Hcall & _).
  - reflexivity.
  - apply (bool_decide_unpack _). vm_compute. exact I.
  - destruct Hcall as [Hcall _].
    + apply (bool_decide_unpack _). vm_compute. exact I.
    + rewrite Hcall. reflexivity.
Defined.

(** The set of the sample file holds the pairs [(obs_id, event_id)] of the
    two rows with [x > 1]: (1, 1) and (2, 1), and not (1, 2). *)
Example remaining_showers_of_the_sample :
  (1, 1)%Z ∈ showers1 (fst (parameter_phase dl1_file [] (EntryList [x_gt_1]))) ∧
  (2, 1)%Z ∈ showers1 (fst (parameter_phase dl1_file [] (EntryList [x_gt_1]))) ∧
  (1, 2)%Z ∉ showers1 (fst (parameter_phase dl1_file [] (EntryList [x_gt_1]))).
Proof. apply (bool_decide_unpack _). vm_compute. exact I. Qed.

(** C3 as stated fails: the table [/dl1/event/subarray/trigger] has no column
    [obs_id], so it does not expose the key columns, and it is not copied
    unchanged.  The first loop returns; the second loop creates the table and
    raises KeyError at its first row, which is not written. *)
Lemma table_without_obs_id_is_not_copied :
  ("obs_id" ∉ colnames trigger1) ∧
  (snd (parameter_phase subarray_file [] (EntryList [x_gt_1])) = None) ∧
  apply_cuts_cta_dl1 subarray_file [] (EntryList [x_gt_1]) =
  {| out_ := [ new_table PARAMETERS "tel_001" (description tel_001)
                 [ [Scalar 1; Scalar 1; Scalar 5]; [Scalar 2; Scalar 1; Scalar 7] ]%Z;
               new_table "/dl1/event/subarray" "trigger" (description trigger1) [] ];
     returned := Raise (KeyError "obs_id") |}.
Proof.
  split; [|split; reflexivity].
  intros Hin. repeat (apply elem_of_cons in Hin as [Hin|Hin]; [done|]).
  by apply elem_of_nil in Hin.
Qed.

(** * Properties of [build_query] *)

Example query_of_two_criteria :
  build_query [("x", ("gt", Number 1)); ("name", ("==", Text "crab")); ("y", ("<=", Number (-5)))] =
  "(x > 1) & (name == " +:+ double_quote +:+ "crab" +:+ double_quote +:+ ") & (y <= -5)".
Proof. reflexivity. Qed.

Lemma OPERATORS_keys o f :
  OPERATORS !! o = Some f →
  (o, f) ∈ [ ("<", operator.lt); ("lt", operator.lt);
             ("<=", operator.le); ("le", operator.le);
             ("==", operator.eq); ("eq", operator.eq);
             ("=", operator.eq);
             ("!=", operator.ne); ("ne", operator.ne);
             (">", operator.gt); ("gt", operator.gt);
             (">=", operator.ge); ("ge", operator.ge) ].
Proof. apply elem_of_list_to_map_2. Qed.

Lemma text2symbol_keys o s :
  text2symbol !! o = Some s →
  (o, s) ∈ [ ("lt", "<"); ("le", "<="); ("eq", "=="); ("ne", "!="); ("gt", ">"); ("ge", ">=") ].
Proof. apply elem_of_list_to_map_2. Qed.

(** X10: the two operator tables agree.  For every operator that [OPERATORS]
    accepts, the spelling that [build_query] writes into the query is again a
    key of [OPERATORS], with the same comparison function, and it is a
    spelling that [text2symbol] leaves alone; every mnemonic of [text2symbol]
    is a key of [OPERATORS]. *)
Theorem operator_tables_agree :
  (∀ o f, OPERATORS !! o = Some f →
     OPERATORS !! text2symbol_get o = Some f ∧
     text2symbol_get (text2symbol_get o) = text2symbol_get o) ∧
  (∀ o s, text2symbol !! o = Some s → OPERATORS !! o = OPERATORS !! s ∧ is_Some (OPERATORS !! s)).
Proof.
  split.
  - intros o f Hin%OPERATORS_keys.
    repeat (apply elem_of_cons in Hin as [[= -> ->]|Hin]; [by split|]).
    by apply elem_of_nil in Hin.
  - intros o s Hin%text2symbol_keys.
    repeat (apply elem_of_cons in Hin as [[= -> ->]|Hin]; [split; [done|by eexists]|]).
    by apply elem_of_nil in Hin.
Qed.

Lemma string_app_assoc (s1 s2 s3 : string) : (s1 +:+ s2) +:+ s3 = s1 +:+ (s2 +:+ s3).
Proof.
  induction s1 as [|a s1 IH]; [done|].
  change (String a ((s1 +:+ s2) +:+ s3) = String a (s1 +:+ (s2 +:+ s3))). by f_equal.
Qed.

Lemma concat_app sep (l1 l2 : list string) :
  l1 ≠ [] → l2 ≠ [] →
  String.concat sep (l1 ++ l2) = String.concat sep l1 +:+ sep +:+ String.concat sep l2.
Proof.
  intros Hl1 Hl2. induction l1 as [|x l1 IH]; [done|].
  destruct l1 as [|y l1].
  - destruct l2; [done|]. done.
  - change (String.concat sep ((x :: y :: l1) ++ l2))
      with (x +:+ sep +:+ String.concat sep ((y :: l1) ++ l2)).
    rewrite IH by done.
    change (String.concat sep (x :: y :: l1)) with (x +:+ sep +:+ String.concat sep (y :: l1)).
    by rewrite !string_app_assoc.
Qed.

(** X11: the query of a configuration made of two non-empty parts is the
    conjunction of the queries of the parts, joined by [" & "]. *)
Theorem query_of_two_parts d1 d2 :
  d1 ≠ [] → d2 ≠ [] →
  build_query (d1 ++ d2) = build_query d1 +:+ " & " +:+ build_query d2.
Proof.
  intros Hd1 Hd2. unfold build_query. rewrite map_app.
  rewrite concat_app; [|by destruct d1|by destruct d2].
  by rewrite !string_app_assoc.
Qed.

Lemma query_of_two_parts_witness :
  build_query ([("x", ("gt", Number 1))] ++ [("y", ("<=", Number 5))]) =
  build_query [("x", ("gt", Number 1))] +:+ " & " +:+ build_query [("y", ("<=", Number 5))].
Proof. apply query_of_two_parts; done. Defined.

(** ** The predictions *)

Lemma length_scatter {A} (a : list A) mask values :
  length (scatter a mask values) = length a.
Proof.
  revert mask values. induction a as [|x a IH]; intros [|m mask] values; try done.
  simpl. destruct m; [destruct values|]; simpl; by rewrite IH.
Qed.

Lemma compress_scatter {A} (a : list A) mask values :
  length mask = length a → length values = count_nonzero mask →
  compress mask (scatter a mask values) = values.
Proof.
  unfold count_nonzero. revert mask values.
  induction a as [|x a IH]; intros [|m mask] values Hlen Hn; simpl in *; try done.
  - by destruct values.
  - destruct m.
    + rewrite filter_cons_True in Hn by done.
      destruct values as [|v values]; [done|]. simpl in *.
      f_equal. apply IH; lia.
    + rewrite filter_cons_False in Hn by done. apply IH; lia.
Qed.

Lemma scatter_lookup_false {A} (a : list A) mask values i :
  mask !! i = Some false → scatter a mask values !! i = a !! i.
Proof.
  revert mask values i.
  induction a as [|x a IH]; intros [|m mask] values i Hi; try done.
  destruct i as [|i]; simpl in *.
  - injection Hi as ->. done.
  - destruct m; [destruct values|]; simpl; by apply IH.
Qed.

Lemma mask_assign_ok {A} (a : list A) mask values :
  length mask = length a → length values = count_nonzero mask →
  mask_assign a mask values = Ok (scatter a mask values).
Proof. intros Hlen Hn. unfold mask_assign. by rewrite !decide_True. Qed.

Lemma lookup_replicate_mask {A} (x : A) (mask : list bool) i b :
  mask !! i = Some b → replicate (length mask) x !! i = Some x.
Proof.
  intros Hi. apply lookup_replicate_2. by apply lookup_lt_Some in Hi.
Qed.

(** X12: [predict_energy] returns one entry per row of the converted
    frame when [check_valid_rows] marks every row and the model predicts one
    value per valid row: the entries of the valid rows are the predictions
    (their exponentials with [log_target]) in the order of the rows, and every
    other entry is NaN. *)
Theorem energy_of_the_valid_rows {features value} (nan : value) exp
    (convert_to_float32 : list features → list features) check_valid_rows
    df model log_target predicted :
  length (check_valid_rows (convert_to_float32 df)) = length (convert_to_float32 df) →
  model (compress (check_valid_rows (convert_to_float32 df)) (convert_to_float32 df))
    = Ok predicted →
  length predicted = count_nonzero (check_valid_rows (convert_to_float32 df)) →
  ∃ energy_prediction,
    predict_energy nan exp convert_to_float32 check_valid_rows df model log_target
      = Ok energy_prediction
    ∧ length energy_prediction = length (convert_to_float32 df)
    ∧ compress (check_valid_rows (convert_to_float32 df)) energy_prediction
      = (if log_target then exp <$> predicted else predicted)
    ∧ ∀ i, check_valid_rows (convert_to_float32 df) !! i = Some false →
           energy_prediction !! i = Some nan.
Proof.
  intros Hvalid Hmodel Hn. unfold predict_energy.
  set (rows := convert_to_float32 df) in *. set (valid := check_valid_rows rows) in *.
  unfold boolean_index at 1. rewrite decide_True by done. cbn [bind].
  rewrite Hmodel. cbn [bind].
  rewrite mask_assign_ok by (by rewrite ?length_replicate). cbn [bind].
  destruct log_target.
  - unfold boolean_index. rewrite decide_True by (by rewrite length_scatter, length_replicate).
    cbn [bind]. rewrite compress_scatter by (by rewrite ?length_replicate).
    rewrite mask_assign_ok
      by (by rewrite ?length_scatter, ?length_replicate, ?length_map).
    eexists; split; [done|]. split; [by rewrite !length_scatter, length_replicate|].
    split.
    + apply compress_scatter; by rewrite ?length_scatter, ?length_replicate, ?length_map.
    + intros i Hi. rewrite !scatter_lookup_false by done.
      rewrite <-Hvalid. by eapply lookup_replicate_mask.
  - eexists; split; [done|]. split; [by rewrite length_scatter, length_replicate|].
    split.
    + apply compress_scatter; by rewrite ?length_replicate.
    + intros i Hi. rewrite scatter_lookup_false by done.
      rewrite <-Hvalid. by eapply lookup_replicate_mask.
Qed.

Lemma energy_of_the_valid_rows_witness :
  ∃ energy_prediction,
    predict_energy (-1)%Z Z.succ id (map (Z.leb 0))
                   [3; -2; 5]%Z (fun X => Ok (map (Z.mul 10) X)) true
      = Ok energy_prediction
    ∧ length energy_prediction = 3
    ∧ compress [true; false; true] energy_prediction = [31; 51]%Z
    ∧ ∀ i, [true; false; true] !! i = Some false → energy_prediction !! i = Some (-1)%Z.
Proof.
  exact (energy_of_the_valid_rows (-1)%Z Z.succ id (map (Z.leb 0))
           [3; -2; 5]%Z (fun X => Ok (map (Z.mul 10) X)) true [30; 50]%Z
           eq_refl eq_refl eq_refl).
Defined.

(** X13: [predict_disp] returns one entry per row of the converted frame
    when [check_valid_rows] marks every row and both models predict one value
    per valid row: the entries of the valid rows are the products of the
    predicted absolute value (its exponential with [log_target]) and the
    predicted sign, in the order of the rows, and every other entry is NaN. *)
Theorem disp_of_the_valid_rows {features value} (nan : value) exp times
    (convert_to_float32 : list features → list features) check_valid_rows
    df abs_model sign_model log_target disp_abs disp_sign :
  length (check_valid_rows (convert_to_float32 df)) = length (convert_to_float32 df) →
  abs_model (compress (check_valid_rows (convert_to_float32 df)) (convert_to_float32 df))
    = Ok disp_abs →
  sign_model (compress (check_valid_rows (convert_to_float32 df)) (convert_to_float32 df))
    = Ok disp_sign →
  length disp_abs = count_nonzero (check_valid_rows (convert_to_float32 df)) →
  length disp_sign = count_nonzero (check_valid_rows (convert_to_float32 df)) →
  ∃ disp_prediction,
    predict_disp nan exp times convert_to_float32 check_valid_rows
                 df abs_model sign_model log_target
      = Ok disp_prediction
    ∧ length disp_prediction = length (convert_to_float32 df)
    ∧ compress (check_valid_rows (convert_to_float32 df)) disp_prediction
      = zip_with times (if log_target then exp <$> disp_abs else disp_abs) disp_sign
    ∧ ∀ i, check_valid_rows (convert_to_float32 df) !! i = Some false →
           disp_prediction !! i = Some nan.
Proof.
  intros Hvalid Habs Hsign Hn_abs Hn_sign. unfold predict_disp.
  set (rows := convert_to_float32 df) in *. set (valid := check_valid_rows rows) in *.
  unfold boolean_index. rewrite decide_True by done. cbn [bind].
  rewrite Habs. cbn [bind]. rewrite Hsign. cbn [bind].
  set (disp_abs' := if log_target then map exp disp_abs else disp_abs).
  assert (length disp_abs' = count_nonzero valid) as Hn_abs'.
  { unfold disp_abs'. destruct log_target; by rewrite ?length_map. }
  unfold multiply. rewrite decide_True by congruence. cbn [bind].
  assert (length (zip_with times disp_abs' disp_sign) = count_nonzero valid) as Hn.
  { rewrite length_zip_with. lia. }
  rewrite mask_assign_ok by (by rewrite ?length_replicate).
  eexists; split; [done|]. split; [by rewrite length_scatter, length_replicate|].
  split.
  - apply compress_scatter; by rewrite ?length_replicate.
  - intros i Hi. rewrite scatter_lookup_false by done.
    rewrite <-Hvalid. by eapply lookup_replicate_mask.
Qed.

Lemma disp_of_the_valid_rows_witness :
  ∃ disp_prediction,
    predict_disp 0%Z Z.succ Z.mul id (map (Z.leb 0))
                 [3; -2; 5]%Z (fun X => Ok X) (fun X => Ok (map (fun _ => (-1)%Z) X)) true
      = Ok disp_prediction
    ∧ length disp_prediction = 3
    ∧ compress [true; false; true] disp_prediction = [-4; -6]%Z
    ∧ ∀ i, [true; false; true] !! i = Some false → disp_prediction !! i = Some 0%Z.
Proof.
  exact (disp_of_the_valid_rows 0%Z Z.succ Z.mul id (map (Z.leb 0))
           [3; -2; 5]%Z (fun X => Ok X) (fun X => Ok (map (fun _ => (-1)%Z) X)) true
           [3; 5]%Z [-1; -1]%Z
           eq_refl eq_refl eq_refl eq_refl eq_refl).
Defined.

(** X14: [predict_separator] returns one entry per row of the converted
    frame when [check_valid_rows] marks every row and the classifier gives a
    probability of the second class for every valid row: the entries of the
    valid rows are these probabilities in the order of the rows, and every
    other entry is NaN. *)
Theorem score_of_the_valid_rows {features value} (nan : value)
    (convert_to_float32 : list features → list features) check_valid_rows
    df predict_proba columns score1 :
  length (check_valid_rows (convert_to_float32 df)) = length (convert_to_float32 df) →
  predict_proba (compress (check_valid_rows (convert_to_float32 df)) (convert_to_float32 df))
    = Ok columns →
  columns !! 1 = Some score1 →
  length score1 = count_nonzero (check_valid_rows (convert_to_float32 df)) →
  ∃ score,
    predict_separator nan convert_to_float32 check_valid_rows df predict_proba = Ok score
    ∧ length score = length (convert_to_float32 df)
    ∧ compress (check_valid_rows (convert_to_float32 df)) score = score1
    ∧ ∀ i, check_valid_rows (convert_to_float32 df) !! i = Some false →
           score !! i = Some nan.
Proof.
  intros Hvalid Hmodel Hcolumn Hn. unfold predict_separator.
  set (rows := convert_to_float32 df) in *. set (valid := check_valid_rows rows) in *.
  unfold boolean_index. rewrite decide_True by done. cbn [bind].
  rewrite Hmodel. cbn [bind]. rewrite Hcolumn.
  rewrite mask_assign_ok by (by rewrite ?length_replicate).
  eexists; split; [done|]. split; [by rewrite length_scatter, length_replicate|].
  split.
  - apply compress_scatter; by rewrite ?length_replicate.
  - intros i Hi. rewrite scatter_lookup_false by done.
    rewrite <-Hvalid. by eapply lookup_replicate_mask.
Qed.

Lemma score_of_the_valid_rows_witness :
  ∃ score,
    predict_separator (-1)%Z id (map (Z.leb 0))
                      [3; -2; 5]%Z (fun X => Ok [map (fun x => (10 - x)%Z) X; X])
      = Ok score
    ∧ length score = 3
    ∧ compress [true; false; true] score = [3; 5]%Z
    ∧ ∀ i, [true; false; true] !! i = Some false → score !! i = Some (-1)%Z.
Proof.
  exact (score_of_the_valid_rows (-1)%Z id (map (Z.leb 0))
           [3; -2; 5]%Z (fun X => Ok [map (fun x => (10 - x)%Z) X; X]) [[7; 5]; [3; 5]]%Z
           [3; 5]%Z
           eq_refl eq_refl eq_refl eq_refl).
Defined.

(** A classifier of a single class has no second column: the index raises. *)
Example one_class_raises :
  predict_separator (-1)%Z id (map (Z.leb 0))
                    [3; -2; 5]%Z (fun X => Ok [X])
  = Raise ShapeError.
Proof. reflexivity. Qed.

(** ** The datasets of the predictions *)

Lemma resize_grow data n :
  apply_regression_model.resize data (length data + n) = data ++ replicate n 0%Z.
Proof.
  unfold apply_regression_model.resize.
  rewrite take_ge by lia. do 2 f_equal. lia.
Qed.

Lemma setslice_tail name data n values :
  length values = n →
  apply_regression_model.setslice name (data ++ replicate n 0%Z)
                                  (length data) (length data + n) values
  = Ok (data ++ values).
Proof.
  intros Hn. unfold apply_regression_model.setslice.
  rewrite length_app, length_replicate.
  rewrite !Nat.min_l by lia.
  destruct (decide (length data + n - length data = 0)) as [H0|H0].
  - assert (n = 0) as -> by lia. destruct values; [|done]. done.
  - rewrite decide_True by lia.
    rewrite take_app_length, drop_ge by (rewrite length_app, length_replicate; lia).
    by rewrite app_nil_r.
Qed.

Lemma store_predictions_append f acc1 acc2 c :
  f !! "energy_prediction" = Some (Rank1 acc1) →
  f !! "energy_prediction_std" = Some (Rank1 acc2) →
  length acc2 = length acc1 →
  apply_regression_model.start c = length acc1 →
  apply_regression_model.end_ c
    = length acc1 + length (apply_regression_model.energy_prediction c) →
  length (apply_regression_model.energy_prediction_std c)
    = length (apply_regression_model.energy_prediction c) →
  apply_regression_model.store_predictions f c
  = {| apply_regression_model.file :=
         <["energy_prediction_std" :=
             Rank1 (acc2 ++ apply_regression_model.energy_prediction_std c)]>
           (<["energy_prediction" :=
                Rank1 (acc1 ++ apply_regression_model.energy_prediction c)]> f);
       apply_regression_model.ended := apply_regression_model.Returned |}.
Proof.
  intros Hep Hstd Hlen Hstart Hend Hlen_c.
  unfold apply_regression_model.store_predictions. rewrite Hep.
  unfold apply_regression_model.on_dataset at 1. rewrite Hep.
  cbn [apply_regression_model.and_then apply_regression_model.ended
       apply_regression_model.file].
  unfold apply_regression_model.on_dataset at 1. rewrite lookup_insert_eq.
  rewrite resize_grow, Hstart, Hend, setslice_tail by done.
  cbn [apply_regression_model.and_then apply_regression_model.ended
       apply_regression_model.file].
  rewrite insert_insert_eq.
  unfold apply_regression_model.on_dataset at 1.
  rewrite lookup_insert_ne, Hstd by done.
  cbn [apply_regression_model.and_then apply_regression_model.ended
       apply_regression_model.file].
  unfold apply_regression_model.on_dataset. rewrite lookup_insert_eq.
  rewrite <-Hlen, resize_grow, setslice_tail by done.
  by rewrite insert_insert_eq.
Qed.

(** Two states of the file that agree on every dataset. *)
Ltac same_file :=
  let name := fresh "name" in
  f_equal; apply map_eq; intros name;
  destruct (decide (name = "energy_prediction_std")) as [->|?];
  [|destruct (decide (name = "energy_prediction")) as [->|?]];
  by simplify_map_eq.

Lemma for_chunks_append chunks : ∀ f acc1 acc2,
  f !! "energy_prediction" = Some (Rank1 acc1) →
  f !! "energy_prediction_std" = Some (Rank1 acc2) →
  length acc2 = length acc1 →
  consecutive (length acc1) chunks →
  apply_regression_model.for_chunks f chunks
  = {| apply_regression_model.file :=
         <["energy_prediction_std" :=
             Rank1 (acc2 ++ concat (apply_regression_model.energy_prediction_std <$> chunks))]>
           (<["energy_prediction" :=
                Rank1 (acc1 ++ concat (apply_regression_model.energy_prediction <$> chunks))]> f);
       apply_regression_model.ended := apply_regression_model.Returned |}.
Proof.
  induction chunks as [|c chunks IH]; intros f acc1 acc2 Hep Hstd Hlen Hchunks.
  - simpl. rewrite !app_nil_r.
    rewrite (insert_id f "energy_prediction") by done.
    by rewrite insert_id.
  - destruct Hchunks as (Hstart & Hend & Hlen_c & Hchunks).
    cbn [apply_regression_model.for_chunks].
    rewrite (store_predictions_append f acc1 acc2) by done.
    cbn [apply_regression_model.and_then apply_regression_model.ended
         apply_regression_model.file].
    rewrite (IH _ (acc1 ++ apply_regression_model.energy_prediction c)
                  (acc2 ++ apply_regression_model.energy_prediction_std c)).
    + rewrite !fmap_cons, !concat_cons, !app_assoc. same_file.
    + by rewrite lookup_insert_ne, lookup_insert_eq.
    + by rewrite lookup_insert_eq.
    + rewrite !length_app. lia.
    + by rewrite length_app, <-Hend.
Qed.

Lemma for_chunks_from_nothing f c chunks :
  f !! "energy_prediction" = None →
  f !! "energy_prediction_std" = None →
  consecutive 0 (c :: chunks) →
  apply_regression_model.for_chunks f (c :: chunks)
  = {| apply_regression_model.file :=
         <["energy_prediction_std" :=
             Rank1 (concat (apply_regression_model.energy_prediction_std <$> c :: chunks))]>
           (<["energy_prediction" :=
                Rank1 (concat (apply_regression_model.energy_prediction <$> c :: chunks))]> f);
       apply_regression_model.ended := apply_regression_model.Returned |}.
Proof.
  intros Hep Hstd (Hstart & Hend & Hlen_c & Hchunks).
  cbn [apply_regression_model.for_chunks].
  unfold apply_regression_model.store_predictions. rewrite Hep.
  unfold apply_regression_model.create_dataset at 1. rewrite Hep.
  cbn [apply_regression_model.and_then apply_regression_model.ended
       apply_regression_model.file].
  unfold apply_regression_model.create_dataset.
  rewrite lookup_insert_ne, Hstd by done.
  cbn [apply_regression_model.and_then apply_regression_model.ended
       apply_regression_model.file].
  rewrite (for_chunks_append chunks _ (apply_regression_model.energy_prediction c)
             (apply_regression_model.energy_prediction_std c)).
  - same_file.
  - by rewrite lookup_insert_ne, lookup_insert_eq.
  - by rewrite lookup_insert_eq.
  - done.
  - by rewrite Hend in Hchunks.
Qed.

Lemma delete_predictions_returns f yes confirmed :
  (is_Some (f !! "energy_prediction") →
   is_Some (f !! "energy_prediction_std") ∧ (yes = true ∨ confirmed = true)) →
  apply_regression_model.delete_predictions f yes confirmed
  = {| apply_regression_model.file :=
         match f !! "energy_prediction" with
         | Some _ => delete "energy_prediction_std" (delete "energy_prediction" f)
         | None => f
         end;
       apply_regression_model.ended := apply_regression_model.Returned |}.
Proof.
  intros Hpair. unfold apply_regression_model.delete_predictions.
  destruct (f !! "energy_prediction") as [d|] eqn:Hep; [|done].
  destruct Hpair as [[d' Hstd] Hyes]; [by eexists|].
  replace (negb yes && negb confirmed) with false
    by (destruct yes, confirmed; try done; by destruct Hyes).
  by rewrite lookup_delete_ne, Hstd.
Qed.

Lemma main_returns f yes confirmed chunks :
  (is_Some (f !! "energy_prediction") →
   is_Some (f !! "energy_prediction_std") ∧ (yes = true ∨ confirmed = true)) →
  (f !! "energy_prediction" = None → f !! "energy_prediction_std" = None) →
  chunks ≠ [] →
  consecutive 0 chunks →
  apply_regression_model.main f yes confirmed chunks
  = {| apply_regression_model.file :=
         <["energy_prediction_std" :=
             Rank1 (concat (apply_regression_model.energy_prediction_std <$> chunks))]>
           (<["energy_prediction" :=
                Rank1 (concat (apply_regression_model.energy_prediction <$> chunks))]> f);
       apply_regression_model.ended := apply_regression_model.Returned |}.
Proof.
  intros Hpair Hnone Hchunks Hconsecutive.
  destruct chunks as [|c chunks]; [done|].
  unfold apply_regression_model.main.
  rewrite delete_predictions_returns by done.
  cbn [apply_regression_model.and_then apply_regression_model.ended
       apply_regression_model.file].
  destruct (f !! "energy_prediction") as [d|] eqn:Hep.
  - rewrite for_chunks_from_nothing; [|by rewrite lookup_delete_ne, lookup_delete_eq
                                       |by rewrite lookup_delete_eq|done].
    same_file.
  - by rewrite for_chunks_from_nothing by auto.
Qed.

(** X15: when the group holds both datasets of an earlier run (and
    overwriting is agreed to) or none of them, and the loop gets at least one
    chunk, the chunks following each other from row 0 with one prediction and
    one standard deviation per row, then [main] returns,
    [energy_prediction] and [energy_prediction_std] hold the arrays of the
    chunks one after the other, and every other dataset of the group is what
    it was. *)
Theorem predictions_are_stored_in_order f yes confirmed chunks :
  (is_Some (f !! "energy_prediction") →
   is_Some (f !! "energy_prediction_std") ∧ (yes = true ∨ confirmed = true)) →
  (f !! "energy_prediction" = None → f !! "energy_prediction_std" = None) →
  chunks ≠ [] →
  consecutive 0 chunks →
  let r := apply_regression_model.main f yes confirmed chunks in
  apply_regression_model.ended r = apply_regression_model.Returned
  ∧ apply_regression_model.file r !! "energy_prediction"
    = Some (Rank1 (concat (apply_regression_model.energy_prediction <$> chunks)))
  ∧ apply_regression_model.file r !! "energy_prediction_std"
    = Some (Rank1 (concat (apply_regression_model.energy_prediction_std <$> chunks)))
  ∧ ∀ name, name ≠ "energy_prediction" → name ≠ "energy_prediction_std" →
            apply_regression_model.file r !! name = f !! name.
Proof.
  intros Hpair Hnone Hchunks Hconsecutive r. subst r.
  rewrite main_returns by done.
  cbn [apply_regression_model.ended apply_regression_model.file].
  split; [done|]. split; [by rewrite lookup_insert_ne, lookup_insert_eq|].
  split; [by rewrite lookup_insert_eq|].
  intros name Hep Hstd. by rewrite !lookup_insert_ne.
Qed.

Lemma predictions_are_stored_in_order_witness :
  let r := apply_regression_model.main predicted_before true false [chunk_0_2; chunk_2_3] in
  apply_regression_model.ended r = apply_regression_model.Returned
  ∧ apply_regression_model.file r !! "energy_prediction" = Some (Rank1 [10; 20; 30]%Z)
  ∧ apply_regression_model.file r !! "energy_prediction_std" = Some (Rank1 [1; 2; 3]%Z)
  ∧ ∀ name, name ≠ "energy_prediction" → name ≠ "energy_prediction_std" →
            apply_regression_model.file r !! name = predicted_before !! name.
Proof.
  apply (predictions_are_stored_in_order predicted_before true false [chunk_0_2; chunk_2_3]).
  - intros _. split; [by eexists|by left].
  - intros H. by vm_compute in H.
  - done.
  - by vm_compute.
Defined.

(** X16: the predictions of an earlier run leave no trace: after a run
    that stored the predictions of its chunks, a second run with [--yes]
    gives the file that it gives on the group as it was before the first
    run. *)
Theorem earlier_predictions_leave_no_trace f yes confirmed confirmed' chunks chunks' :
  (is_Some (f !! "energy_prediction") →
   is_Some (f !! "energy_prediction_std") ∧ (yes = true ∨ confirmed = true)) →
  (f !! "energy_prediction" = None → f !! "energy_prediction_std" = None) →
  chunks ≠ [] → consecutive 0 chunks →
  chunks' ≠ [] → consecutive 0 chunks' →
  apply_regression_model.main
    (apply_regression_model.file (apply_regression_model.main f yes confirmed chunks))
    true confirmed' chunks'
  = apply_regression_model.main f yes confirmed chunks'.
Proof.
  intros Hpair Hnone Hchunks Hconsecutive Hchunks' Hconsecutive'.
  rewrite (main_returns f yes confirmed chunks) by done.
  cbn [apply_regression_model.file].
  rewrite (main_returns f yes confirmed chunks') by done.
  rewrite main_returns; [same_file| |by rewrite lookup_insert_ne, lookup_insert_eq|done|done].
  intros _. split; [|by left]. rewrite lookup_insert_eq. by eexists.
Qed.

Lemma earlier_predictions_leave_no_trace_witness :
  apply_regression_model.main
    (apply_regression_model.file
       (apply_regression_model.main predicted_before true false [chunk_0_2; chunk_2_3]))
    true false [chunk_0_2]
  = apply_regression_model.main predicted_before true false [chunk_0_2].
Proof.
  apply (earlier_predictions_leave_no_trace predicted_before true false false
           [chunk_0_2; chunk_2_3] [chunk_0_2]).
  - intros _. split; [by eexists|by left].
  - intros H. by vm_compute in H.
  - done.
  - by vm_compute.
  - done.
  - by vm_compute.
Defined.

Lemma store_predictions_own f c :
  own_datasets f →
  apply_regression_model.ended (apply_regression_model.store_predictions f c)
    ≠ apply_regression_model.Foreign
  ∧ (apply_regression_model.ended (apply_regression_model.store_predictions f c)
       = apply_regression_model.Returned →
     own_datasets (apply_regression_model.file (apply_regression_model.store_predictions f c))).
Proof.
  intros Hown.
  remember (apply_regression_model.store_predictions f c) as r eqn:Hr.
  unfold apply_regression_model.store_predictions in Hr.
  destruct Hown as [Hnone|(data1 & data2 & Hep & Hstd)].
  - rewrite Hnone in Hr. unfold apply_regression_model.create_dataset in Hr.
    rewrite Hnone in Hr.
    cbn [apply_regression_model.and_then apply_regression_model.ended
         apply_regression_model.file] in Hr.
    rewrite lookup_insert_ne in Hr by done.
    destruct (f !! "energy_prediction_std"); subst r;
      cbn [apply_regression_model.ended apply_regression_model.file]; split; try done.
    intros _. right. eexists _, _.
    split; [by rewrite lookup_insert_ne, lookup_insert_eq|by rewrite lookup_insert_eq].
  - rewrite Hep in Hr.
    unfold apply_regression_model.on_dataset at 1 in Hr. rewrite Hep in Hr.
    cbn [apply_regression_model.and_then apply_regression_model.ended
         apply_regression_model.file] in Hr.
    unfold apply_regression_model.on_dataset at 1 in Hr. rewrite lookup_insert_eq in Hr.
    destruct (apply_regression_model.setslice "energy_prediction" _ _ _ _) as [data1'|e];
      cbn [apply_regression_model.and_then apply_regression_model.ended
           apply_regression_model.file] in Hr; [|by subst r].
    unfold apply_regression_model.on_dataset at 1 in Hr.
    rewrite !lookup_insert_ne, Hstd in Hr by done.
    cbn [apply_regression_model.and_then apply_regression_model.ended
         apply_regression_model.file] in Hr.
    unfold apply_regression_model.on_dataset in Hr. rewrite lookup_insert_eq in Hr.
    destruct (apply_regression_model.setslice "energy_prediction_std" _ _ _ _) as [data2'|e];
      subst r; cbn [apply_regression_model.ended apply_regression_model.file]; [|done].
    split; [done|]. intros _. right. eexists _, _.
    split; [by rewrite !(lookup_insert_ne _ "energy_prediction_std"), lookup_insert_eq
           |by rewrite lookup_insert_eq].
Qed.

Lemma for_chunks_own chunks : ∀ f,
  own_datasets f →
  apply_regression_model.ended (apply_regression_model.for_chunks f chunks)
    ≠ apply_regression_model.Foreign.
Proof.
  induction chunks as [|c chunks IH]; intros f Hown; [done|].
  cbn [apply_regression_model.for_chunks]. unfold apply_regression_model.and_then.
  destruct (store_predictions_own f c Hown) as [Hforeign Hnext].
  destruct (apply_regression_model.ended (apply_regression_model.store_predictions f c))
    eqn:Hended; try by rewrite Hended.
  by apply IH, Hnext.
Qed.

(** X17: whatever the group holds and whatever the chunks are, [main]
    never resizes or writes a dataset that is not a growable rank-1 dataset:
    a dataset that the loop resizes or writes has been created by the loop
    itself. *)
Theorem only_own_datasets_are_written f yes confirmed chunks :
  apply_regression_model.ended (apply_regression_model.main f yes confirmed chunks)
    ≠ apply_regression_model.Foreign.
Proof.
  unfold apply_regression_model.main, apply_regression_model.delete_predictions,
    apply_regression_model.and_then.
  destruct (f !! "energy_prediction") as [d|] eqn:Hep.
  - destruct (negb yes && negb confirmed); [done|].
    destruct (delete "energy_prediction" f !! "energy_prediction_std");
      cbn [apply_regression_model.ended apply_regression_model.file]; [|done].
    apply for_chunks_own. left. by rewrite lookup_delete_ne, lookup_delete_eq.
  - cbn [apply_regression_model.ended apply_regression_model.file].
    apply for_chunks_own. by left.
Qed.

(** X18: the deletion looks at [energy_prediction] only: when the group
    holds [energy_prediction_std] without it, the first chunk creates
    [energy_prediction], fails to create [energy_prediction_std] and leaves a
    file with the predictions of the first chunk beside the old standard
    deviations. *)
Theorem standard_deviations_left_over_raise f yes confirmed c chunks :
  f !! "energy_prediction" = None →
  is_Some (f !! "energy_prediction_std") →
  apply_regression_model.main f yes confirmed (c :: chunks)
  = {| apply_regression_model.file :=
         <["energy_prediction" :=
             Rank1 (apply_regression_model.energy_prediction c)]> f;
       apply_regression_model.ended :=
         apply_regression_model.Raised (ValueError_create "energy_prediction_std") |}.
Proof.
  intros Hep [d Hstd].
  unfold apply_regression_model.main, apply_regression_model.delete_predictions.
  rewrite Hep.
  cbn [apply_regression_model.and_then apply_regression_model.ended
       apply_regression_model.file apply_regression_model.for_chunks].
  unfold apply_regression_model.store_predictions. rewrite Hep.
  unfold apply_regression_model.create_dataset. rewrite Hep.
  cbn [apply_regression_model.and_then apply_regression_model.ended
       apply_regression_model.file].
  by rewrite lookup_insert_ne, Hstd.
Qed.

Lemma standard_deviations_left_over_raise_witness :
  apply_regression_model.main std_left_over true false [chunk_0_2; chunk_2_3]
  = {| apply_regression_model.file :=
         <["energy_prediction" := Rank1 [10; 20]%Z]> std_left_over;
       apply_regression_model.ended :=
         apply_regression_model.Raised (ValueError_create "energy_prediction_std") |}.
Proof.
  apply (standard_deviations_left_over_raise std_left_over true false chunk_0_2 [chunk_2_3]).
  - reflexivity.
  - by eexists.
Defined.

(** Without [energy_prediction_std] the deletion raises after
    [energy_prediction] is gone. *)
Example predictions_without_standard_deviations :
  apply_regression_model.main
    (<["energy_prediction" := Rank1 [5; 5]%Z]> (<["size" := Rank1 [100; 200]%Z]> ∅))
    true false [chunk_0_2]
  = {| apply_regression_model.file := <["size" := Rank1 [100; 200]%Z]> ∅;
       apply_regression_model.ended :=
         apply_regression_model.Raised (KeyError "energy_prediction_std") |}.
Proof. by vm_compute. Qed.

(** A chunk that does not follow the rows stored so far: the bounds select
    no cell of the grown dataset, and the new cells keep the fill value. *)
Example gap_between_chunks :
  apply_regression_model.file
    (apply_regression_model.main ∅ true false
       [chunk_0_2;
        {| apply_regression_model.energy_prediction := [30]%Z;
           apply_regression_model.energy_prediction_std := [3]%Z;
           apply_regression_model.start := 5;
           apply_regression_model.end_ := 6 |}])
  !! "energy_prediction" = Some (Rank1 [10; 20; 0]%Z).
Proof. by vm_compute. Qed.
